(** * A shallow embedding of [app.py], the YouTube download facade

    The Flask application of [src/app.py] is embedded function by function:
    [is_valid_youtube_url], [get_video_info], [stream_video], the two
    request handlers [video_info] and [download], and the generator
    [generate] that feeds the response body.

    - Python [str] values are lists of Unicode code points.
    - The two regular expressions of the validator are kept as syntax
      trees and run by a small backtracking matcher with Python's
      priorities (leftmost start, greedy quantifiers, left alternative
      first).
    - Exceptions are values of [exn]; a computation that may raise
      returns [res A]; handlers, which also log, allocate buffers and
      call the extractor, live in the state-and-exception monad [M].
    - pytube (the class [YouTube], its streams and their queries) is not
      part of the repository: what it answers is a parameter, the class
      [Platform]. *)

From Stdlib Require Import String Ascii List NArith ZArith Lia Bool.
From Stdlib Require Import Sorting.Sorted DecimalString.
From stdpp Require Import base list.
Import ListNotations.

Open Scope N_scope.

(** ** Python strings *)

(** A character is its code point ([ord]). *)
Definition char := N.
Definition str := list char.

Definition ch (a : ascii) : char := N_of_ascii a.

Definition bytes_of (s : string) : list N :=
  List.map N_of_ascii (list_ascii_of_string s).

(** The source file is UTF-8: a literal of the source is decoded to the
    code points Python holds. *)
Fixpoint utf8_decode (bs : list N) : str :=
  match bs with
  | [] => []
  | b0 :: r0 =>
    if b0 <? 128 then b0 :: utf8_decode r0
    else match r0 with
    | [] => []
    | b1 :: r1 =>
      if b0 <? 224 then ((b0 - 192) * 64 + (b1 - 128)) :: utf8_decode r1
      else match r1 with
      | [] => []
      | b2 :: r2 =>
        if b0 <? 240
        then ((b0 - 224) * 4096 + (b1 - 128) * 64 + (b2 - 128)) :: utf8_decode r2
        else match r2 with
        | [] => []
        | b3 :: r3 =>
          ((b0 - 240) * 262144 + (b1 - 128) * 4096 + (b2 - 128) * 64 + (b3 - 128))
            :: utf8_decode r3
        end
      end
    end
  end.

(** [py "..."] is the Python string written ["..."] in the source. *)
Definition py (s : string) : str := utf8_decode (bytes_of s).

Arguments py : simpl never.

Fixpoint str_eqb (a b : str) : bool :=
  match a, b with
  | [], [] => true
  | x :: a', y :: b' => (x =? y) && str_eqb a' b'
  | _, _ => false
  end.

(** [s.startswith(p)] *)
Fixpoint startswith (s p : str) : bool :=
  match p, s with
  | [], _ => true
  | x :: p', y :: s' => (y =? x) && startswith s' p'
  | _ :: _, [] => false
  end.

(** [s.endswith(p)] *)
Definition endswith (s p : str) : bool :=
  (length p <=? length s)%nat && str_eqb (drop (length s - length p) s) p.

(** [x in xs] for a collection of strings *)
Definition str_in (x : str) (xs : list str) : bool := existsb (str_eqb x) xs.

(** ** Exceptions *)

(** The classes the handlers of the source tell apart. A class stands for
    itself and its subclasses not listed: pytube's [AgeRestrictedError]
    derives from [VideoUnavailable]; [OtherException] is any other
    subclass of [Exception]. *)
Inductive exn_class :=
| AgeRestrictedError
| VideoUnavailable
| ValueError
| OtherException.

(** An exception object: its class and [str(e)]. *)
Record exn := Exn { exn_cls : exn_class; exn_str : str }.

Definition res (A : Type) : Type := exn + A.

(** ** Regular expressions *)

(** The constructs the two patterns of the source use. A quantifier is
    only ever applied to a character class there. *)
Inductive regex :=
| Chr (c : char)                       (* a literal character          *)
| Cat (r1 r2 : regex)                  (* r1 r2                        *)
| Alt (r1 r2 : regex)                  (* r1|r2, left one first        *)
| Opt (r : regex)                      (* r?  greedy                   *)
| ClsPlus (p : char -> bool)           (* [...]+  greedy               *)
| ClsRep (n : nat) (p : char -> bool)  (* [...]{n}                     *)
| Grp (i : nat) (r : regex).           (* the i-th capturing group     *)

(** A literal string is the concatenation of its characters. *)
Fixpoint Lit (l : str) (r : regex) : regex :=
  match l with
  | [] => r
  | c :: l' => Cat (Chr c) (Lit l' r)
  end.

(** The groups of a match, most recently closed first. *)
Definition captures := list (nat * str).

Fixpoint group (i : nat) (m : captures) : option str :=
  match m with
  | [] => None
  | (j, s) :: m' => if Nat.eqb i j then Some s else group i m'
  end.

(** Greedy [p*]: the longest run first, shorter ones on backtracking. *)
Fixpoint cls_star {A} (p : char -> bool) (s : str) (k : str -> option A) : option A :=
  match s with
  | c :: s' =>
    if p c then
      match cls_star p s' k with
      | Some r => Some r
      | None => k s
      end
    else k s
  | [] => k []
  end.

Fixpoint cls_rep {A} (n : nat) (p : char -> bool) (s : str) (k : str -> option A)
  : option A :=
  match n with
  | O => k s
  | S n' =>
    match s with
    | c :: s' => if p c then cls_rep n' p s' k else None
    | [] => None
    end
  end.

(** [rmatch r s m k]: match [r] at the head of [s], then run the rest of
    the pattern [k] on what is left; [None] makes the caller backtrack. *)
Fixpoint rmatch (r : regex) (s : str) (m : captures)
    (k : str -> captures -> option captures) : option captures :=
  match r with
  | Chr c =>
    match s with
    | c' :: s' => if c' =? c then k s' m else None
    | [] => None
    end
  | Cat r1 r2 => rmatch r1 s m (fun s1 m1 => rmatch r2 s1 m1 k)
  | Alt r1 r2 =>
    match rmatch r1 s m k with
    | Some x => Some x
    | None => rmatch r2 s m k
    end
  | Opt r1 =>
    match rmatch r1 s m k with
    | Some x => Some x
    | None => k s m
    end
  | ClsPlus p =>
    match s with
    | c :: s' => if p c then cls_star p s' (fun s2 => k s2 m) else None
    | [] => None
    end
  | ClsRep n p => cls_rep n p s (fun s2 => k s2 m)
  | Grp i r1 =>
    rmatch r1 s m (fun s1 m1 => k s1 ((i, take (length s - length s1) s) :: m1))
  end.

(** A match of the whole pattern starting at the head of [s]; group 0 is
    the matched text. *)
Definition re_match (r : regex) (s : str) : option captures :=
  rmatch (Grp 0 r) s [] (fun _ m => Some m).

(** [re.search(r, s)]: the match at the leftmost start that has one. *)
Fixpoint re_search (r : regex) (s : str) : option captures :=
  match re_match r s with
  | Some m => Some m
  | None =>
    match s with
    | [] => None
    | _ :: s' => re_search r s'
    end
  end.

(** [re.sub(r, repl, s)] where [r] is one character class: every
    character of the class is a match of its own. *)
Fixpoint re_sub_cls (p : char -> bool) (repl : str) (s : str) : str :=
  match s with
  | [] => []
  | c :: s' =>
    if p c then repl ++ re_sub_cls p repl s' else c :: re_sub_cls p repl s'
  end.

(** [m.group(i)] where [m] is what [re.search] returned: [None] has no
    attribute [group]. *)
Definition match_group (m : option captures) (i : nat) : res (option str) :=
  match m with
  | None => inl (Exn OtherException (py "'NoneType' object has no attribute 'group'"))
  | Some c => inr (group i c)
  end.

(** ** The URL validator *)

Definition in_range (lo hi : ascii) (c : char) : bool :=
  (ch lo <=? c) && (c <=? ch hi).

(** [[^/]] *)
Definition not_slash (c : char) : bool := negb (c =? ch "/").

(** [[0-9A-Za-z_-]] *)
Definition id_char (c : char) : bool :=
  in_range "0" "9" c || in_range "A" "Z" c || in_range "a" "z" c
  || (c =? ch "_") || (c =? ch "-").

(** [r'https?://(www\.)?([^/]+)'] *)
Definition DOMAIN_RE : regex :=
  Lit (py "http") (Cat (Opt (Chr (ch "s"))) (Lit (py "://")
    (Cat (Opt (Grp 1 (Lit (py "www") (Chr (ch ".")))))
         (Grp 2 (ClsPlus not_slash))))).

(** [r'(?:v=|\/)([0-9A-Za-z_-]{11})'] *)
Definition VIDEO_ID_RE : regex :=
  Cat (Alt (Cat (Chr (ch "v")) (Chr (ch "="))) (Chr (ch "/")))
      (Grp 1 (ClsRep 11 id_char)).

Definition ALLOWED_DOMAINS : list str := [py "youtube.com"; py "youtu.be"].

(** The body of the [try] of [is_valid_youtube_url]. *)
Definition is_valid_youtube_url_try (url : str) : res bool :=
  match match_group (re_search DOMAIN_RE url) 2 with
  | inl e => inl e
  | inr None => inl (Exn OtherException (py "'NoneType' object has no attribute 'endswith'"))
  | inr (Some domain) =>
    if negb (str_in domain ALLOWED_DOMAINS)
       && negb (existsb (fun d => endswith domain d) ALLOWED_DOMAINS)
    then inr false
    else
      let video_id_match := re_search VIDEO_ID_RE url in
      inr (match video_id_match with Some _ => true | None => false end)
  end.

(** [is_valid_youtube_url]: the bare [except:] turns every exception into
    [False]. *)
Definition is_valid_youtube_url (url : str) : bool :=
  match is_valid_youtube_url_try url with
  | inr b => b
  | inl _ => false
  end.

(** ** What the two patterns of the validator say *)

Fixpoint take_while (p : char -> bool) (s : str) : str :=
  match s with
  | c :: s' => if p c then c :: take_while p s' else []
  | [] => []
  end.

Fixpoint drop_while (p : char -> bool) (s : str) : str :=
  match s with
  | c :: s' => if p c then drop_while p s' else s
  | [] => []
  end.

(** [s] without its prefix [l], when it starts with [l]. *)
Fixpoint strip_prefix (l s : str) : option str :=
  match l, s with
  | [], _ => Some s
  | x :: l', y :: s' => if y =? x then strip_prefix l' s' else None
  | _ :: _, [] => None
  end.

(** The longest run of characters other than [/] at the head of [u], when
    it is not empty. *)
Definition run_of_domain (u : str) : option str :=
  match take_while not_slash u with
  | [] => None
  | d => Some d
  end.

(** The longest run of characters other than [/], said without a function. *)
Definition domain_run (u d : str) : Prop :=
  exists rest,
    u = d ++ rest
    /\ Forall (fun c => c <> ch "/") d
    /\ (rest = [] \/ exists rest', rest = ch "/" :: rest').

(** The domain pattern from [://] on, read as a function: [www.] is
    skipped when something of the domain is left after it. *)
Definition after_scheme (t : str) : option str :=
  match strip_prefix (py "://") t with
  | None => None
  | Some t1 =>
    match strip_prefix (py "www.") t1 with
    | Some t2 =>
      match run_of_domain t2 with
      | Some d => Some d
      | None => run_of_domain t1
      end
    | None => run_of_domain t1
    end
  end.

(** The second group of a match of the domain pattern at the head of [s],
    read as a function. *)
Definition domain_at (s : str) : option str :=
  match strip_prefix (py "http") s with
  | None => None
  | Some s1 =>
    match s1 with
    | c :: s1' =>
      if c =? ch "s"
      then match after_scheme s1' with
           | Some d => Some d
           | None => after_scheme s1
           end
      else after_scheme s1
    | [] => after_scheme s1
    end
  end.

(** [s] starts with [http://] or [https://], an optional [www.] and the
    domain [d]: the longest run of characters other than [/], not empty,
    that follows; [www.] belongs to the domain only when nothing of it
    would be left otherwise. *)
Definition domain_here (s d : str) : Prop :=
  exists scheme www rest,
    s = scheme ++ py "://" ++ www ++ d ++ rest
    /\ (scheme = py "http" \/ scheme = py "https")
    /\ d <> []
    /\ Forall (fun c => c <> ch "/") d
    /\ (rest = [] \/ exists rest', rest = ch "/" :: rest')
    /\ (www = py "www."
        \/ (www = [] /\ ~ exists d', d' <> [] /\ d = py "www." ++ d')).

(** The domain the validator extracts from [url]: the one at the first
    place of [url] that has one. *)
Definition extracted_domain (url d : str) : Prop :=
  exists pre s,
    url = pre ++ s
    /\ domain_here s d
    /\ forall pre' s' d',
         url = pre' ++ s' -> (length pre' < length pre)%nat -> ~ domain_here s' d'.

(** [s] starts with [v=] or [/] and eleven characters of [[0-9A-Za-z_-]]. *)
Definition video_id_here (s : str) : Prop :=
  exists sep id post,
    s = sep ++ id ++ post
    /\ (sep = py "v=" \/ sep = py "/")
    /\ length id = 11%nat
    /\ Forall (fun c => id_char c = true) id.

(** [url] holds a candidate video ID somewhere. *)
Definition has_video_id (url : str) : Prop :=
  exists pre s, url = pre ++ s /\ video_id_here s.

(** The domain is in the allow-list, or ends with an entry of it. *)
Definition allowed_domain (d : str) : Prop :=
  In d ALLOWED_DOMAINS \/ exists a p, In a ALLOWED_DOMAINS /\ d = p ++ a.

(** ** Formatting and splitting *)

(** [str(n)] for an [int]. *)
Definition str_of_Z (n : Z) : str :=
  bytes_of (NilZero.string_of_int (Z.to_int n)).

(** [f"{x}"] where [x] is a string or [None]. *)
Definition format_opt_str (x : option str) : str :=
  match x with
  | Some s => s
  | None => py "None"
  end.

(** [s.split(sep)] for a separator of one character. *)
Fixpoint split_on (sep : char) (s : str) : list str :=
  match s with
  | [] => [[]]
  | c :: s' =>
    if c =? sep then [] :: split_on sep s'
    else match split_on sep s' with
         | h :: t => (c :: h) :: t
         | [] => [[c]]
         end
  end.

(** [l[i]] *)
Definition index {A} (l : list A) (i : nat) : res A :=
  match nth_error l i with
  | Some x => inr x
  | None => inl (Exn OtherException (py "list index out of range"))
  end.

(** ** Buffers *)

Definition bytes := list Byte.byte.

Fixpoint takeN {A} (n : N) (l : list A) : list A :=
  match l with
  | [] => []
  | x :: l' => if n =? 0 then [] else x :: takeN (N.pred n) l'
  end.

Fixpoint dropN {A} (n : N) (l : list A) : list A :=
  match l with
  | [] => []
  | x :: l' => if n =? 0 then l else dropN (N.pred n) l'
  end.

(** An [io.BytesIO] object. [closes] counts the calls of [close()] it
    has received. *)
Record BytesIO := {
  buf : bytes;
  pos : N;
  closed : bool;
  closes : nat
}.

Definition closed_file : exn :=
  Exn ValueError (py "I/O operation on closed file.").

(** An open buffer holding [data], positioned at its start, never closed. *)
Definition fresh_buffer (data : bytes) : BytesIO :=
  {| buf := data; pos := 0; closed := false; closes := 0 |}.

Definition BytesIO_empty : BytesIO := fresh_buffer [].

(** [b.write(data)] *)
Definition BytesIO_write (data : bytes) (b : BytesIO) : res unit * BytesIO :=
  if closed b then (inl closed_file, b)
  else
    let before := takeN (pos b) (buf b) in
    let after := dropN (pos b + N.of_nat (length data)) (buf b) in
    (inr tt, {| buf := before ++ data ++ after;
                pos := pos b + N.of_nat (length data);
                closed := false; closes := closes b |}).

(** [b.seek(n)] *)
Definition BytesIO_seek (n : N) (b : BytesIO) : res unit * BytesIO :=
  if closed b then (inl closed_file, b)
  else (inr tt, {| buf := buf b; pos := n; closed := false; closes := closes b |}).

(** [b.read(n)] *)
Definition BytesIO_read (n : N) (b : BytesIO) : res bytes * BytesIO :=
  if closed b then (inl closed_file, b)
  else
    let chunk := takeN n (dropN (pos b) (buf b)) in
    (inr chunk, {| buf := buf b; pos := pos b + N.of_nat (length chunk);
                   closed := false; closes := closes b |}).

(** [b.close()]: the buffer is given back; closing again is allowed. *)
Definition BytesIO_close (b : BytesIO) : res unit * BytesIO :=
  (inr tt, {| buf := []; pos := pos b; closed := true; closes := S (closes b) |}).

(** ** The extractor *)

(** A pytube [Stream]. [filesize] is a property that asks the network;
    [stream_data] is what [stream_to_buffer] writes, or the exception it
    ends with. *)
Record Stream := {
  itag : Z;
  resolution : option str;
  fps : option Z;
  mime_type : str;
  subtype : str;
  is_progressive : bool;
  filesize : res Z;
  stream_data : res bytes
}.

(** [yt.streams]: the streams in the order pytube lists them, and the
    lookup by itag. *)
Record StreamQuery := {
  fmt_streams : list Stream;
  get_by_itag : str -> res (option Stream)
}.

(** A [YouTube] object; each property asks the network on its own. *)
Record YouTubeObj := {
  yt_length : res Z;
  yt_title : res str;
  yt_author : res str;
  yt_thumbnail_url : res str;
  yt_streams : res StreamQuery
}.

(** What the program gets from outside the repository: pytube's answer to
    [YouTube(url)], and Python's Unicode tables for the code points above
    ASCII ([str.isalnum] behind [\w], and [str.upper]). *)
Class Platform := {
  YouTube : str -> res YouTubeObj;
  unicode_isalnum : char -> bool;
  unicode_upper : char -> str
}.

(** ** State, exceptions and the monad of the handlers *)

Definition handle := nat.

Record state := {
  log : list str;        (* messages given to [logger.error], oldest first *)
  heap : list BytesIO;   (* the [BytesIO] objects created so far, by handle *)
  requests : list str    (* the URLs [YouTube] was constructed with *)
}.

Definition M (A : Type) : Type := state -> res A * state.

Definition ret {A} (x : A) : M A := fun st => (inr x, st).

Definition raise {A} (e : exn) : M A := fun st => (inl e, st).

Definition bind {A B} (m : M A) (k : A -> M B) : M B :=
  fun st =>
    match m st with
    | (inr x, st') => k x st'
    | (inl e, st') => (inl e, st')
    end.

(** [try: m  except Exception as e: h e] *)
Definition try_except {A} (m : M A) (h : exn -> M A) : M A :=
  fun st =>
    match m st with
    | (inr x, st') => (inr x, st')
    | (inl e, st') => h e st'
    end.

(** A computation that raises or returns without touching the state. *)
Definition lift {A} (r : res A) : M A := fun st => (r, st).

Notation "x <- m ;; k" := (bind m (fun x => k))
  (at level 100, m at next level, right associativity).
Notation "m >> k" := (bind m (fun _ => k))
  (at level 100, right associativity).

(** The state after one more logged message, after one more call of the
    extractor, and after one more buffer was created. *)
Definition logged (msg : str) (st : state) : state :=
  {| log := log st ++ [msg]; heap := heap st; requests := requests st |}.

Definition requested (url : str) (st : state) : state :=
  {| log := log st; heap := heap st; requests := requests st ++ [url] |}.

Definition allocated (b : BytesIO) (st : state) : state :=
  {| log := log st; heap := heap st ++ [b]; requests := requests st |}.

(** [logger.error(msg)] *)
Definition logger_error (msg : str) : M unit :=
  fun st => (inr tt, logged msg st).

(** [io.BytesIO()] *)
Definition BytesIO_new : M handle :=
  fun st => (inr (length (heap st)), allocated BytesIO_empty st).

(** A method call on the buffer behind a handle. *)
Definition on_buffer {A} (h : handle) (f : BytesIO -> res A * BytesIO) : M A :=
  fun st =>
    match heap st !! h with
    | Some b =>
      let (r, b') := f b in
      (r, {| log := log st; heap := <[h := b']> (heap st);
             requests := requests st |})
    | None => (inl (Exn OtherException (py "no such object")), st)
    end.

(** Monadic map over a list, for the pure exception monad. *)
Fixpoint map_res {A B} (f : A -> res B) (l : list A) : res (list B) :=
  match l with
  | [] => inr []
  | x :: l' =>
    match f x with
    | inl e => inl e
    | inr y =>
      match map_res f l' with
      | inl e => inl e
      | inr ys => inr (y :: ys)
      end
    end
  end.

(** ** pytube's stream queries *)

Module Pytube.

(** Python's [sorted(l, key=...)]: stable, ascending. An element goes in
    front of the first one that is not smaller, so equal keys keep the
    order they came in. *)
Fixpoint insert_by {A K} (leb : K -> K -> bool) (key : A -> K) (x : A) (l : list A)
  : list A :=
  match l with
  | [] => [x]
  | y :: l' =>
    if leb (key x) (key y) then x :: y :: l' else y :: insert_by leb key x l'
  end.

Fixpoint sorted_by {A K} (leb : K -> K -> bool) (key : A -> K) (l : list A) : list A :=
  match l with
  | [] => []
  | x :: l' => insert_by leb key x (sorted_by leb key l')
  end.

Definition is_digit (c : char) : bool := in_range "0" "9" c.

(** The number a resolution label shows: its digits read in base ten
    ("720p" is 720); none when the label has no digit. *)
Definition height (label : str) : option N :=
  match List.filter is_digit label with
  | [] => None
  | ds => Some (fold_left (fun a d => 10 * a + (d - ch "0")) ds 0)
  end.

Definition stream_height (s : Stream) : option N :=
  match resolution s with
  | Some label => height label
  | None => None
  end.

(** Python's [<=] on strings: code point by code point. *)
Fixpoint str_leb (a b : str) : bool :=
  match a, b with
  | [], _ => true
  | _ :: _, [] => false
  | x :: a', y :: b' => (x <? y) || ((x =? y) && str_leb a' b')
  end.

(** Modelled from the spec: pytube's [StreamQuery.filter(file_extension='mp4',
    progressive=True)], which is not in the repository. The spec: only
    progressive streams (audio and video combined), restricted to the MP4
    container. *)
Definition filter_mp4_progressive (l : list Stream) : list Stream :=
  List.filter (fun s => str_eqb (subtype s) (py "mp4") && is_progressive s) l.

Definition has_resolution (s : Stream) : bool :=
  match resolution s with Some _ => true | None => false end.

(** The label of the stream can be read as a number. *)
Definition parses (s : Stream) : bool :=
  match stream_height s with Some _ => true | None => false end.

(** Modelled from the spec: pytube's [StreamQuery.order_by('resolution')],
    which is not in the repository. The spec: the comparison is by numeric
    height where the labels can be read as numbers, else by the native
    ordering of the labels; streams without a resolution are left out.
    The order is ascending; [desc] turns it around. *)
Definition order_by_resolution (l : list Stream) : list Stream :=
  let has_attribute := List.filter has_resolution l in
  if forallb parses has_attribute
  then sorted_by N.leb (fun s => default 0 (stream_height s)) has_attribute
  else sorted_by str_leb (fun s => default [] (resolution s)) has_attribute.

(** Modelled from the spec: pytube's [StreamQuery.desc()], which is not in
    the repository: the same streams, last one first. *)
Definition desc (l : list Stream) : list Stream := rev l.

End Pytube.

(** ** Requests and responses *)

(** [request.args]: the query parameters in the order they were sent. *)
Record Request := { args : list (str * str) }.

(** [request.args.get(key)]: the first value sent for [key], or [None]. *)
Fixpoint args_get (l : list (str * str)) (key : str) : option str :=
  match l with
  | [] => None
  | (k, v) :: l' => if str_eqb k key then Some v else args_get l' key
  end.

(** One entry of ['streams']. *)
Record StreamInfo := {
  si_itag : Z;
  si_resolution : option str;
  si_filesize : Z;
  si_fps : option Z;
  si_type : str
}.

(** The dictionary [get_video_info] returns. *)
Record VideoInfo := {
  vi_title : str;
  vi_author : str;
  vi_duration : Z;
  vi_thumbnail_url : str;
  vi_streams : list StreamInfo
}.

(** A resolution label, or its absence, as a number and as a string. *)
Definition label_height (r : option str) : N :=
  default 0 (match r with Some label => Pytube.height label | None => None end).

Definition label_text (r : option str) : str := default [] r.

(** The number the resolution label of an entry shows, if any. *)
Definition descriptor_height (d : StreamInfo) : option N :=
  match si_resolution d with
  | Some label => Pytube.height label
  | None => None
  end.

(** The resolution label of an entry, empty when there is none. *)
Definition descriptor_label (d : StreamInfo) : str := default [] (si_resolution d).

(** Where the generator [generate()] of [download] stands: not started,
    stopped at its [yield], or finished. *)
Inductive gen_status := GenCreated | GenSuspended | GenDone.

(** A generator object of [generate]: the buffer its closure holds and
    where it stands. *)
Record generator := { gen_byte_stream : handle; gen_status_of : gen_status }.

Inductive body :=
| JsonError (msg : str)          (* jsonify({'error': msg}) *)
| JsonInfo (info : VideoInfo)    (* jsonify(info)           *)
| Streamed (g : generator).      (* an iterable body        *)

Record Response := {
  status : N;
  headers : list (str * str);
  body_of : body
}.

(** [jsonify(b), code] *)
Definition jsonify (b : body) (code : N) : Response :=
  {| status := code;
     headers := [(py "Content-Type", py "application/json")];
     body_of := b |}.

Definition lower_char (c : char) : char :=
  if in_range "A" "Z" c then c + 32 else c.

(** Header names are compared without regard to case. *)
Definition header_eqb (a b : str) : bool :=
  str_eqb (List.map lower_char a) (List.map lower_char b).

(** [headers[key] = value]: the first entry of that name is replaced, any
    other entry of that name is dropped; a new name goes to the end. *)
Fixpoint set_header (key value : str) (hs : list (str * str)) : list (str * str) :=
  match hs with
  | [] => [(key, value)]
  | (k, v) :: hs' =>
    if header_eqb k key
    then (key, value) :: List.filter (fun kv => negb (header_eqb (fst kv) key)) hs'
    else (k, v) :: set_header key value hs'
  end.

(** [Response(g, mimetype=m)] *)
Definition Response_new (g : generator) (mimetype : str) : Response :=
  {| status := 200;
     headers := [(py "Content-Type", mimetype)];
     body_of := Streamed g |}.

Definition with_header (key value : str) (r : Response) : Response :=
  {| status := status r;
     headers := set_header key value (headers r);
     body_of := body_of r |}.

(** ** The application *)

Definition MAX_VIDEO_DURATION : Z := 3600.

Section App.
Context {P : Platform}.

(** [YouTube(url)]; the call is recorded. *)
Definition new_YouTube (url : str) : M YouTubeObj :=
  fun st => (YouTube url, requested url st).

(** [f"https://www.youtube.com/watch?v={video_id}"] *)
Definition watch_url (video_id : str) : str :=
  py "https://www.youtube.com/watch?v=" ++ video_id.

(** [s.upper()] *)
Definition upper_char (c : char) : str :=
  if c <? 128 then (if in_range "a" "z" c then [c - 32] else [c])
  else unicode_upper c.

Definition upper (s : str) : str := flat_map upper_char s.

(** [\w] of a [str] pattern: alphanumeric by the Unicode tables, or the
    underscore. *)
Definition is_word (c : char) : bool :=
  if c <? 128
  then in_range "0" "9" c || in_range "A" "Z" c || in_range "a" "z" c
       || (c =? ch "_")
  else unicode_isalnum c.

(** [[^\w\-_. ]] *)
Definition unsafe_char (c : char) : bool :=
  negb (is_word c || (c =? ch "-") || (c =? ch "_") || (c =? ch ".")
        || (c =? ch " ")).

(** The dictionary built for one stream in the loop of [get_video_info]. *)
Definition format_stream (stream : Stream) : res StreamInfo :=
  match filesize stream with
  | inl e => inl e
  | inr size =>
    match index (split_on (ch "/") (mime_type stream)) 1 with
    | inl e => inl e
    | inr sub =>
      inr {| si_itag := itag stream;
             si_resolution := resolution stream;
             si_filesize := size;
             si_fps := fps stream;
             si_type := upper sub |}
    end
  end.

(** The messages of the source. In English: the duration is over the
    limit (of so many minutes); the video is age-restricted and cannot be
    downloaded; the video is unavailable or was deleted; an error while
    processing the video, with its detail; the resolution is invalid; the
    video ID parameter is missing; required parameters are missing;
    internal server error. *)
Definition duration_limit_message : str :=
  py "视频时长超过限制(" ++ str_of_Z (MAX_VIDEO_DURATION / 60) ++ py "分钟)".

Definition age_restricted_message : str := py "该视频受年龄限制，无法下载".

Definition unavailable_message : str := py "视频不可用或已被删除".

Definition processing_error (detail : str) : str := py "处理视频时出错: " ++ detail.

Definition invalid_resolution_message : str := py "无效的视频分辨率".

Definition missing_video_id_message : str := py "缺少视频ID参数".

Definition missing_parameters_message : str := py "缺少必要参数".

Definition internal_error_message : str := py "服务器内部错误".

(** [yt.streams.filter(file_extension='mp4', progressive=True)
    .order_by('resolution').desc()] *)
Definition selected_streams (q : StreamQuery) : list Stream :=
  Pytube.desc (Pytube.order_by_resolution
                 (Pytube.filter_mp4_progressive (fmt_streams q))).

(** The body of the [try] of [get_video_info]. *)
Definition get_video_info_try (video_id : str) : M VideoInfo :=
  yt <- new_YouTube (watch_url video_id) ;;
  len <- lift (yt_length yt) ;;
  (if (len >? MAX_VIDEO_DURATION)%Z
   then raise (Exn ValueError duration_limit_message)
   else ret tt) >>
  q <- lift (yt_streams yt) ;;
  let streams := selected_streams q in
  formatted_streams <- lift (map_res format_stream streams) ;;
  title <- lift (yt_title yt) ;;
  author <- lift (yt_author yt) ;;
  duration <- lift (yt_length yt) ;;
  thumbnail_url <- lift (yt_thumbnail_url yt) ;;
  ret {| vi_title := title;
         vi_author := author;
         vi_duration := duration;
         vi_thumbnail_url := thumbnail_url;
         vi_streams := formatted_streams |}.

(** The [except] clauses of [get_video_info], in their order. *)
Definition get_video_info_except (e : exn) : M VideoInfo :=
  match exn_cls e with
  | AgeRestrictedError =>
    raise (Exn ValueError age_restricted_message)
  | VideoUnavailable =>
    raise (Exn ValueError unavailable_message)
  | _ =>
    logger_error (py "获取视频信息失败: " ++ exn_str e) >>
    raise (Exn ValueError (processing_error (exn_str e)))
  end.

Definition get_video_info (video_id : str) : M VideoInfo :=
  try_except (get_video_info_try video_id) get_video_info_except.

(** [safe_title] and [filename] of [stream_video]. *)
Definition make_filename (title : str) (resolution : option str) : str :=
  let safe_title := re_sub_cls unsafe_char [] title in
  safe_title ++ py "_" ++ format_opt_str resolution ++ py ".mp4".

(** [stream.stream_to_buffer(byte_stream)] *)
Definition stream_to_buffer (stream : Stream) (byte_stream : handle) : M unit :=
  data <- lift (stream_data stream) ;;
  on_buffer byte_stream (BytesIO_write data).

(** The body of the [try] of [stream_video]. *)
Definition stream_video_try (video_id itag : str) : M (handle * str * Z) :=
  yt <- new_YouTube (watch_url video_id) ;;
  q <- lift (yt_streams yt) ;;
  stream <- lift (get_by_itag q itag) ;;
  match stream with
  | None => raise (Exn ValueError invalid_resolution_message)
  | Some stream =>
    title <- lift (yt_title yt) ;;
    let filename := make_filename title (resolution stream) in
    byte_stream <- BytesIO_new ;;
    stream_to_buffer stream byte_stream >>
    on_buffer byte_stream (BytesIO_seek 0) >>
    size <- lift (filesize stream) ;;
    ret (byte_stream, filename, size)
  end.

(** The [except] clause of [stream_video]. *)
Definition stream_video_except (e : exn) : M (handle * str * Z) :=
  logger_error (py "视频流处理失败: " ++ exn_str e) >>
  raise (Exn ValueError (processing_error (exn_str e))).

Definition stream_video (video_id itag : str) : M (handle * str * Z) :=
  try_except (stream_video_try video_id itag) stream_video_except.

(** [not x] for a query parameter: true of [None] and of ['']. *)
Definition falsy (x : option str) : bool :=
  match x with
  | None => true
  | Some [] => true
  | Some (_ :: _) => false
  end.

(** The body of the [try] of [video_info]. *)
Definition video_info_try (request : Request) : M Response :=
  let video_id := args_get (args request) (py "video_id") in
  if falsy video_id
  then ret (jsonify (JsonError missing_video_id_message) 400)
  else
    info <- get_video_info (default [] video_id) ;;
    ret (jsonify (JsonInfo info) 200).

(** The [except] clauses of [video_info]. *)
Definition video_info_except (e : exn) : M Response :=
  match exn_cls e with
  | ValueError => ret (jsonify (JsonError (exn_str e)) 400)
  | _ =>
    logger_error (py "API错误: " ++ exn_str e) >>
    ret (jsonify (JsonError internal_error_message) 500)
  end.

Definition video_info (request : Request) : M Response :=
  try_except (video_info_try request) video_info_except.

(** The body of the [try] of [download]. *)
Definition download_try (request : Request) : M Response :=
  let video_id := args_get (args request) (py "video_id") in
  let itag := args_get (args request) (py "resolution") in
  if falsy video_id || falsy itag
  then ret (jsonify (JsonError missing_parameters_message) 400)
  else
    r <- stream_video (default [] video_id) (default [] itag) ;;
    let '(byte_stream, filename, file_size) := r in
    let response :=
      Response_new {| gen_byte_stream := byte_stream; gen_status_of := GenCreated |}
                   (py "video/mp4") in
    let response :=
      with_header (py "Content-Disposition") (py "attachment; filename=" ++ filename)
                  response in
    let response := with_header (py "Content-Length") (str_of_Z file_size) response in
    let response := with_header (py "Accept-Ranges") (py "bytes") response in
    ret response.

(** The [except] clauses of [download]. *)
Definition download_except (e : exn) : M Response :=
  match exn_cls e with
  | ValueError => ret (jsonify (JsonError (exn_str e)) 400)
  | _ =>
    logger_error (py "下载API错误: " ++ exn_str e) >>
    ret (jsonify (JsonError internal_error_message) 500)
  end.

Definition download (request : Request) : M Response :=
  try_except (download_try request) download_except.

End App.

(** What [stream_video] ends with when its [try] raised [e] in state [st]:
    the [except] clause logs the failure and raises a [ValueError] with the
    processing-error prefix. *)
Definition stream_video_failed (e : exn) (st : state) : res (handle * str * Z) * state :=
  (inl (Exn ValueError (processing_error (exn_str e))),
   logged (py "视频流处理失败: " ++ exn_str e) st).

(** ** The body generator of [download] *)

Definition chunk_size : N := 1024 * 1024.

(** What one [next(g)] ends with. *)
Inductive gen_result :=
| Yield (chunk : bytes)
| StopIteration
| Raised (e : exn).

Definition gen_at (s : gen_status) (g : generator) : generator :=
  {| gen_byte_stream := gen_byte_stream g; gen_status_of := s |}.

(** [next(g)]: [generate()] runs from where it stands to its next
    [yield], or to its end, where it closes [byte_stream]. *)
Definition generate_next (g : generator) (st : state)
  : gen_result * generator * state :=
  match gen_status_of g with
  | GenDone => (StopIteration, g, st)
  | _ =>
    match on_buffer (gen_byte_stream g) (BytesIO_read chunk_size) st with
    | (inl e, st1) => (Raised e, gen_at GenDone g, st1)
    | (inr [], st1) =>
      match on_buffer (gen_byte_stream g) BytesIO_close st1 with
      | (inl e, st2) => (Raised e, gen_at GenDone g, st2)
      | (inr _, st2) => (StopIteration, gen_at GenDone g, st2)
      end
    | (inr chunk, st1) => (Yield chunk, gen_at GenSuspended g, st1)
    end
  end.

(** [g.close()]: [GeneratorExit] is raised at the [yield] where the
    generator stands. [generate()] has no [try] around its loop, so the
    frame is left at once and nothing after the loop runs; a generator
    that has not started just ends. *)
Definition generate_close (g : generator) (st : state) : generator * state :=
  (gen_at GenDone g, st).

(** The server sending a streamed body to a client that takes at most
    [n] chunks: it asks for the next chunk until the generator ends or the
    client is gone, and in both cases calls [close()] on the body. *)
Fixpoint serve (n : nat) (g : generator) (st : state)
  : list bytes * generator * state :=
  match n with
  | O => let (g', st') := generate_close g st in ([], g', st')
  | S n' =>
    match generate_next g st with
    | (Yield c, g1, st1) =>
      let '(cs, g2, st2) := serve n' g1 st1 in (c :: cs, g2, st2)
    | (_, g1, st1) =>
      let (g', st') := generate_close g1 st1 in ([], g', st')
    end
  end.

(** What is left to read in a buffer. *)
Definition remaining (b : BytesIO) : bytes := dropN (pos b) (buf b).

(** The chunks [n] calls of [read(size)] return one after another from
    [data], up to the first empty one. *)
Fixpoint split_chunks (n : nat) (size : N) (data : bytes) : list bytes :=
  match n with
  | O => []
  | S n' =>
    match takeN size data with
    | [] => []
    | c => c :: split_chunks n' size (dropN size data)
    end
  end.

(** The buffer [b] after [serve n] ran on it: closed when the generator
    got to its end within the [n] requests, as it was left otherwise. *)
Definition after_serve (n : nat) (b : BytesIO) : BytesIO :=
  let cs := split_chunks n chunk_size (remaining b) in
  if (length cs <? n)%nat
  then {| buf := []; pos := pos b + N.of_nat (length (concat cs));
          closed := true; closes := S (closes b) |}
  else {| buf := buf b; pos := pos b + N.of_nat (length (concat cs));
          closed := false; closes := closes b |}.

Definition with_heap (hp : list BytesIO) (st : state) : state :=
  {| log := log st; heap := hp; requests := requests st |}.

(** ** A platform to run the handlers on *)

Module Example.

Definition x00 : Byte.byte := Byte.x00.

Definition s720 : Stream :=
  {| itag := 22; resolution := Some (py "720p"); fps := Some 30%Z;
     mime_type := py "video/mp4"; subtype := py "mp4"; is_progressive := true;
     filesize := inr 3%Z; stream_data := inr [x00; x00; x00] |}.

Definition s360 : Stream :=
  {| itag := 18; resolution := Some (py "360p"); fps := Some 30%Z;
     mime_type := py "video/mp4"; subtype := py "mp4"; is_progressive := true;
     filesize := inr 2%Z; stream_data := inr [x00; x00] |}.

Definition s1080 : Stream :=
  {| itag := 137; resolution := Some (py "1080p"); fps := Some 30%Z;
     mime_type := py "video/mp4"; subtype := py "mp4"; is_progressive := false;
     filesize := inr 9%Z; stream_data := inr [x00] |}.

Definition s_webm : Stream :=
  {| itag := 43; resolution := Some (py "360p"); fps := Some 30%Z;
     mime_type := py "video/webm"; subtype := py "webm"; is_progressive := true;
     filesize := inr 2%Z; stream_data := inr [x00] |}.

Definition query : StreamQuery :=
  {| fmt_streams := [s360; s1080; s_webm; s720];
     get_by_itag := fun i =>
       if str_eqb i (py "22") then inr (Some s720)
       else if str_eqb i (py "18") then inr (Some s360)
       else if str_eqb i (py "137") then inr (Some s1080)
       else if str_eqb i (py "43") then inr (Some s_webm)
       else if forallb Pytube.is_digit i then inr None
       else inl (Exn ValueError (py "invalid literal for int() with base 10")) |}.

Definition short_video : YouTubeObj :=
  {| yt_length := inr 212%Z;
     yt_title := inr (py "Foo: Bar/Baz");
     yt_author := inr (py "someone");
     yt_thumbnail_url := inr (py "https://i.ytimg.com/vi/dQw4w9WgXcQ/hq.jpg");
     yt_streams := inr query |}.

Definition long_video : YouTubeObj :=
  {| yt_length := inr 3601%Z;
     yt_title := inr (py "a long one");
     yt_author := inr (py "someone");
     yt_thumbnail_url := inr (py "https://i.ytimg.com/vi/LLLLLLLLLLL/hq.jpg");
     yt_streams := inr query |}.

(** A platform that knows two videos and answers everything else with an
    extractor fault. *)
Definition platform : Platform :=
  {| YouTube := fun url =>
       if str_eqb url (py "https://www.youtube.com/watch?v=dQw4w9WgXcQ")
       then inr short_video
       else if str_eqb url (py "https://www.youtube.com/watch?v=LLLLLLLLLLL")
       then inr long_video
       else inl (Exn OtherException (py "regex_search: could not find match"));
     unicode_isalnum := fun _ => false;
     unicode_upper := fun c => [c] |}.

Definition st0 : state := {| log := []; heap := []; requests := [] |}.

Definition request_of (l : list (string * string)) : Request :=
  {| args := List.map (fun kv => (py (fst kv), py (snd kv))) l |}.

End Example.

(** ** A platform whose extractor fails *)

Module Faulty.

Definition age_restricted : exn :=
  Exn AgeRestrictedError (py "AAAAAAAAAAA is age restricted, and can't be accessed without logging in.").

Definition unavailable : exn :=
  Exn VideoUnavailable (py "UUUUUUUUUUU is unavailable").

Definition too_many_requests : exn :=
  Exn OtherException (py "HTTP Error 429: Too Many Requests").

Definition connection_reset : exn :=
  Exn OtherException (py "[Errno 104] Connection reset by peer").

(** A video whose data cannot be read at all. *)
Definition unreadable (e : exn) : YouTubeObj :=
  {| yt_length := inl e; yt_title := inl e; yt_author := inl e;
     yt_thumbnail_url := inl e; yt_streams := inl e |}.

(** A stream whose download breaks. *)
Definition s_broken : Stream :=
  {| itag := 22; resolution := Some (py "720p"); fps := Some 30%Z;
     mime_type := py "video/mp4"; subtype := py "mp4"; is_progressive := true;
     filesize := inr 3%Z; stream_data := inl connection_reset |}.

(** A stream whose size cannot be asked for. *)
Definition s_sizeless : Stream :=
  {| itag := 18; resolution := Some (py "360p"); fps := Some 30%Z;
     mime_type := py "video/mp4"; subtype := py "mp4"; is_progressive := true;
     filesize := inl too_many_requests;
     stream_data := inr [Example.x00; Example.x00] |}.

Definition query : StreamQuery :=
  {| fmt_streams := [s_sizeless; s_broken];
     get_by_itag := fun i =>
       if str_eqb i (py "22") then inr (Some s_broken)
       else if str_eqb i (py "18") then inr (Some s_sizeless)
       else inr None |}.

Definition broken_video : YouTubeObj :=
  {| yt_length := inr 100%Z;
     yt_title := inr (py "breaks");
     yt_author := inr (py "someone");
     yt_thumbnail_url := inr (py "https://i.ytimg.com/vi/BBBBBBBBBBB/hq.jpg");
     yt_streams := inr query |}.

Definition platform : Platform :=
  {| YouTube := fun url =>
       if str_eqb url (py "https://www.youtube.com/watch?v=AAAAAAAAAAA")
       then inr (unreadable age_restricted)
       else if str_eqb url (py "https://www.youtube.com/watch?v=UUUUUUUUUUU")
       then inr (unreadable unavailable)
       else if str_eqb url (py "https://www.youtube.com/watch?v=NNNNNNNNNNN")
       then inr (unreadable too_many_requests)
       else if str_eqb url (py "https://www.youtube.com/watch?v=BBBBBBBBBBB")
       then inr broken_video
       else inl (Exn OtherException (py "regex_search: could not find match"));
     unicode_isalnum := fun _ => false;
     unicode_upper := fun c => [c] |}.

End Faulty.

(** * Theorems *)

(** ** Running the monad *)

Ltac run :=
  unfold try_except, bind, lift, ret, raise, logger_error in *; simpl in *.

Lemma takeN_take {A} (n : N) (l : list A) : takeN n l = take (N.to_nat n) l.
Proof.
  revert n; induction l as [|x l IH]; intros n; simpl.
  - now destruct (N.to_nat n).
  - destruct (N.eqb_spec n 0) as [->|Hn]; [reflexivity|].
    rewrite IH. replace (N.to_nat n) with (S (N.to_nat (N.pred n))) by lia.
    reflexivity.
Qed.

Lemma dropN_drop {A} (n : N) (l : list A) : dropN n l = drop (N.to_nat n) l.
Proof.
  revert n; induction l as [|x l IH]; intros n; simpl.
  - now destruct (N.to_nat n).
  - destruct (N.eqb_spec n 0) as [->|Hn]; [reflexivity|].
    rewrite IH. replace (N.to_nat n) with (S (N.to_nat (N.pred n))) by lia.
    reflexivity.
Qed.

Lemma processing_error_longer m : processing_error m <> m.
Proof.
  intros H. apply (f_equal (@length _)) in H.
  unfold processing_error in H. rewrite length_app in H.
  vm_compute (length (py _)) in H. lia.
Qed.

Lemma duration_message_not_wrapped detail :
  processing_error detail <> duration_limit_message.
Proof. intros H. vm_compute in H. discriminate H. Qed.

Lemma invalid_resolution_not_wrapped detail :
  processing_error detail <> invalid_resolution_message.
Proof. intros H. vm_compute in H. discriminate H. Qed.

Lemma falsy_spec (x : option str) :
  falsy x = true <-> (x = None \/ x = Some []).
Proof.
  destruct x as [[|c v]|]; simpl; split; intros H; auto; try discriminate.
  destruct H; discriminate.
Qed.

(** ** The generator *)

Lemma takeN_nil_iff {A} (size : N) (l : list A) :
  0 < size -> (takeN size l = [] <-> l = []).
Proof.
  intros Hs. destruct l as [|x l]; cbn [takeN]; [tauto|].
  destruct (N.eqb_spec size 0); [lia|]. split; discriminate.
Qed.

Lemma takeN_dropN {A} (size : N) (l : list A) : takeN size l ++ dropN size l = l.
Proof. rewrite takeN_take, dropN_drop. apply take_drop. Qed.

Lemma length_takeN_le {A} (size : N) (l : list A) :
  N.of_nat (length (takeN size l)) <= size.
Proof. rewrite takeN_take, length_take. lia. Qed.

Lemma length_dropN {A} (size : N) (l : list A) :
  length (dropN size l) = (length l - N.to_nat size)%nat.
Proof. rewrite dropN_drop. apply length_drop. Qed.

Lemma dropN_nonempty_takeN_full {A} (size : N) (l : list A) :
  dropN size l <> [] -> N.of_nat (length (takeN size l)) = size.
Proof.
  intros H. assert (length (dropN size l) <> 0%nat) as Hl by (destruct (dropN size l); simpl; congruence).
  rewrite length_dropN in Hl. rewrite takeN_take, length_take. lia.
Qed.

Lemma dropN_add {A} (p : N) (size : N) (l : list A) :
  dropN (p + N.of_nat (length (takeN size (dropN p l)))) l = dropN size (dropN p l).
Proof.
  rewrite !dropN_drop, takeN_take, length_take, length_drop, drop_drop.
  destruct (Nat.le_gt_cases (N.to_nat size) (length l - N.to_nat p)) as [Hle|Hgt].
  - f_equal. lia.
  - rewrite !drop_ge by lia. reflexivity.
Qed.

Lemma split_chunks_all (n : nat) (size : N) (data : bytes) :
  0 < size -> (length data < n)%nat ->
  concat (split_chunks n size data) = data
  /\ (length (split_chunks n size data) < n)%nat.
Proof.
  intros Hs. revert data. induction n as [|n IH]; intros data Hn; [lia|].
  cbn [split_chunks].
  destruct (takeN size data) as [|x c] eqn:E.
  - apply (takeN_nil_iff size data Hs) in E. subst. simpl. split; [reflexivity|lia].
  - assert (data <> []) as Hne.
    { intros ->. simpl in E. discriminate. }
    assert (length (dropN size data) < n)%nat as Hd.
    { rewrite length_dropN. destruct data; [congruence|]. simpl in *. lia. }
    destruct (IH _ Hd) as [IH1 IH2]. cbn [concat length]. rewrite IH1, <- E.
    split; [apply takeN_dropN|lia].
Qed.

Lemma split_chunks_sizes (n : nat) (size : N) (data : bytes) :
  Forall (fun c => c <> [] /\ N.of_nat (length c) <= size) (split_chunks n size data).
Proof.
  revert data. induction n as [|n IH]; intros data; cbn [split_chunks]; [constructor|].
  destruct (takeN size data) as [|x c] eqn:E; [constructor|].
  constructor; [|apply IH]. split; [discriminate|].
  rewrite <- E. apply length_takeN_le.
Qed.

Lemma split_chunks_full (n : nat) (size : N) (data : bytes) (i : nat) (c : bytes) :
  split_chunks n size data !! i = Some c ->
  (S i < length (split_chunks n size data))%nat ->
  N.of_nat (length c) = size.
Proof.
  revert data i. induction n as [|n IH]; intros data i; cbn [split_chunks].
  { intros H. discriminate H. }
  destruct (takeN size data) as [|x c0] eqn:E.
  { intros H. discriminate H. }
  destruct i as [|i]; cbn [lookup list_lookup length].
  - intros [= <-] Hl. rewrite <- E. apply dropN_nonempty_takeN_full.
    intros Hd. rewrite Hd in Hl. destruct n; simpl in Hl; lia.
  - intros Hi Hl. apply (IH _ _ Hi). lia.
Qed.

Lemma with_heap_id st : with_heap (heap st) st = st.
Proof. now destruct st. Qed.

Lemma on_buffer_at {A} (f : BytesIO -> res A * BytesIO) h b st :
  heap st !! h = Some b ->
  on_buffer h f st = (fst (f b), with_heap (<[h := snd (f b)]> (heap st)) st).
Proof. intros H. unfold on_buffer. rewrite H. now destruct (f b). Qed.

Lemma serve_run (n : nat) : forall g st b,
  gen_status_of g <> GenDone ->
  heap st !! gen_byte_stream g = Some b ->
  closed b = false ->
  serve n g st
  = (split_chunks n chunk_size (remaining b), gen_at GenDone g,
     with_heap (<[gen_byte_stream g := after_serve n b]> (heap st)) st).
Proof.
  induction n as [|n IH]; intros g st b Hg Hb Hc.
  - cbn [serve generate_close split_chunks]. unfold after_serve.
    cbn [split_chunks length concat Nat.ltb Nat.leb]. rewrite N.add_0_r.
    replace {| buf := buf b; pos := pos b; closed := false; closes := closes b |}
      with b by (destruct b; simpl in *; congruence).
    rewrite list_insert_id by exact Hb. now rewrite with_heap_id.
  - assert (gen_byte_stream g < length (heap st))%nat as Hlt
      by (eapply lookup_lt_Some; exact Hb).
    cbn [serve]. unfold generate_next.
    replace (match gen_status_of g with GenDone => (StopIteration, g, st) | _ =>
      match on_buffer (gen_byte_stream g) (BytesIO_read chunk_size) st with
      | (inl e, st1) => (Raised e, gen_at GenDone g, st1)
      | (inr [], st1) =>
        match on_buffer (gen_byte_stream g) BytesIO_close st1 with
        | (inl e, st2) => (Raised e, gen_at GenDone g, st2)
        | (inr _, st2) => (StopIteration, gen_at GenDone g, st2)
        end
      | (inr chunk, st1) => (Yield chunk, gen_at GenSuspended g, st1)
      end end)
    with (match on_buffer (gen_byte_stream g) (BytesIO_read chunk_size) st with
      | (inl e, st1) => (Raised e, gen_at GenDone g, st1)
      | (inr [], st1) =>
        match on_buffer (gen_byte_stream g) BytesIO_close st1 with
        | (inl e, st2) => (Raised e, gen_at GenDone g, st2)
        | (inr _, st2) => (StopIteration, gen_at GenDone g, st2)
        end
      | (inr chunk, st1) => (Yield chunk, gen_at GenSuspended g, st1)
      end)
    by (destruct (gen_status_of g); congruence).
    rewrite (on_buffer_at _ _ _ _ Hb). unfold BytesIO_read at 1 2. rewrite Hc.
    cbn [fst snd]. fold (remaining b). cbn [split_chunks]. unfold after_serve.
    cbn [split_chunks].
    destruct (takeN chunk_size (remaining b)) as [|x c] eqn:E.
    + rewrite (on_buffer_at _ _ (snd (BytesIO_read chunk_size b))).
      2:{ unfold with_heap; cbn [heap]. rewrite list_lookup_insert_eq by exact Hlt.
          unfold BytesIO_read. rewrite Hc. cbn [snd]. fold (remaining b). rewrite E.
          reflexivity. }
      cbn [fst snd BytesIO_close generate_close]. unfold with_heap. cbn [heap log requests].
      rewrite list_insert_insert_eq. cbn [length concat Nat.ltb Nat.leb].
      unfold BytesIO_read. rewrite Hc. cbn [snd pos closes]. fold (remaining b).
      rewrite E. reflexivity.
    + set (b1 := {| buf := buf b; pos := pos b + N.of_nat (length (x :: c));
                    closed := false; closes := closes b |}).
      set (st1 := with_heap (<[gen_byte_stream g := b1]> (heap st)) st).
      assert (remaining b1 = dropN chunk_size (remaining b)) as Hr.
      { unfold remaining, b1. cbn [pos buf]. rewrite <- E. apply dropN_add. }
      replace (snd (BytesIO_read chunk_size b)) with b1
        by (unfold BytesIO_read; rewrite Hc; cbn [snd]; fold (remaining b);
            now rewrite E).
      fold st1. rewrite (IH (gen_at GenSuspended g) st1 b1).
      * cbn [gen_at gen_byte_stream]. unfold st1, with_heap. cbn [heap log requests].
        rewrite list_insert_insert_eq. unfold after_serve. rewrite Hr.
        cbn [length concat]. rewrite length_app.
        change (S (length (split_chunks n chunk_size (dropN chunk_size (remaining b)))) <? S n)%nat
          with (length (split_chunks n chunk_size (dropN chunk_size (remaining b))) <? n)%nat.
        unfold b1. cbn [pos buf closes].
        replace (pos b + N.of_nat (length (x :: c)) +
                 N.of_nat (length (concat (split_chunks n chunk_size (dropN chunk_size (remaining b))))))
          with (pos b + N.of_nat (length (x :: c) +
                 length (concat (split_chunks n chunk_size (dropN chunk_size (remaining b))))))
          by lia.
        reflexivity.
      * discriminate.
      * unfold st1, with_heap. cbn [heap gen_at gen_byte_stream].
        now rewrite list_lookup_insert_eq by exact Hlt.
      * reflexivity.
Qed.

Lemma dropN_0 {A} (l : list A) : dropN 0 l = l.
Proof. now destruct l. Qed.

Lemma download_headers (v0 v1 v2 v3 : str) :
  set_header (py "Accept-Ranges") v3
    (set_header (py "Content-Length") v2
      (set_header (py "Content-Disposition") v1 [(py "Content-Type", v0)]))
  = [(py "Content-Type", v0); (py "Content-Disposition", v1);
     (py "Content-Length", v2); (py "Accept-Ranges", v3)].
Proof. vm_compute. reflexivity. Qed.

Lemma download_except_status e st :
  exists msg code,
    download_except e st
    = (inr (jsonify (JsonError msg) code),
       if match exn_cls e with ValueError => true | _ => false end
       then st else logged (py "下载API错误: " ++ exn_str e) st)
    /\ (code = 400 \/ code = 500).
Proof.
  unfold download_except, bind, logger_error, ret.
  destruct (exn_cls e).
  - exists internal_error_message, 500. split; [reflexivity|now right].
  - exists internal_error_message, 500. split; [reflexivity|now right].
  - exists (exn_str e), 400. split; [reflexivity|now left].
  - exists internal_error_message, 500. split; [reflexivity|now right].
Qed.

(** ** Sorting *)

Section Sorting.
Context {A K : Type} (leb : K -> K -> bool) (key : A -> K).
Hypothesis leb_total : forall a b, leb a b = true \/ leb b a = true.
Hypothesis leb_trans : forall a b c, leb a b = true -> leb b c = true -> leb a c = true.

Let R (a b : A) : Prop := leb (key a) (key b) = true.

Lemma insert_by_perm x l : Permutation (Pytube.insert_by leb key x l) (x :: l).
Proof.
  induction l as [|y l IH]; cbn [Pytube.insert_by]; [reflexivity|].
  destruct (leb (key x) (key y)); [reflexivity|].
  rewrite IH. apply perm_swap.
Qed.

Lemma sorted_by_perm l : Permutation (Pytube.sorted_by leb key l) l.
Proof.
  induction l as [|x l IH]; cbn [Pytube.sorted_by]; [reflexivity|].
  rewrite insert_by_perm. now constructor.
Qed.

Lemma insert_by_sorted x l :
  StronglySorted R l -> StronglySorted R (Pytube.insert_by leb key x l).
Proof.
  induction 1 as [|y l Hs IH Hy]; cbn [Pytube.insert_by].
  - repeat constructor.
  - destruct (leb (key x) (key y)) eqn:E.
    + constructor; [now constructor|]. constructor; [exact E|].
      eapply Forall_impl; [exact Hy|]. intros z Hz. exact (leb_trans _ _ _ E Hz).
    + constructor; [exact IH|].
      assert (R y x) as Hyx.
      { destruct (leb_total (key x) (key y)) as [H|H]; [congruence|exact H]. }
      eapply Permutation_Forall; [symmetry; apply insert_by_perm|].
      now constructor.
Qed.

Lemma sorted_by_sorted l : StronglySorted R (Pytube.sorted_by leb key l).
Proof.
  induction l as [|x l IH]; cbn [Pytube.sorted_by]; [constructor|].
  now apply insert_by_sorted.
Qed.

End Sorting.

Lemma StronglySorted_snoc {A} (R : A -> A -> Prop) l x :
  StronglySorted R l -> Forall (fun y => R y x) l -> StronglySorted R (l ++ [x]).
Proof.
  induction 1 as [|y l Hs IH Hy]; intros Hx; cbn [app].
  - repeat constructor.
  - inversion Hx; subst. constructor; [now apply IH|].
    apply Forall_app. split; [exact Hy|]. now repeat constructor.
Qed.

Lemma StronglySorted_rev {A} (R : A -> A -> Prop) l :
  StronglySorted R l -> StronglySorted (fun a b => R b a) (rev l).
Proof.
  induction 1 as [|y l Hs IH Hy]; cbn [rev]; [constructor|].
  apply StronglySorted_snoc; [exact IH|].
  apply List.Forall_forall. intros z Hz. apply in_rev in Hz.
  rewrite List.Forall_forall in Hy. now apply Hy.
Qed.

Lemma StronglySorted_map {A B} (f : A -> B) (R : B -> B -> Prop) l :
  StronglySorted (fun a b => R (f a) (f b)) l -> StronglySorted R (List.map f l).
Proof.
  induction 1 as [|y l Hs IH Hy]; cbn [List.map]; constructor; [exact IH|].
  apply List.Forall_forall. intros z Hz. apply in_map_iff in Hz.
  destruct Hz as (a & <- & Ha). rewrite List.Forall_forall in Hy. now apply Hy.
Qed.

Lemma str_leb_total a b : Pytube.str_leb a b = true \/ Pytube.str_leb b a = true.
Proof.
  revert b. induction a as [|x a IH]; intros [|y b]; cbn [Pytube.str_leb]; auto.
  destruct (N.compare_spec x y) as [->|H|H].
  - rewrite N.ltb_irrefl, N.eqb_refl. cbn [orb andb]. apply IH.
  - left. apply N.ltb_lt in H. now rewrite H.
  - right. apply N.ltb_lt in H. now rewrite H.
Qed.

Lemma str_leb_trans a b c :
  Pytube.str_leb a b = true -> Pytube.str_leb b c = true -> Pytube.str_leb a c = true.
Proof.
  revert b c. induction a as [|x a IH]; intros [|y b] [|z c]; cbn [Pytube.str_leb];
    try reflexivity; try discriminate.
  rewrite !orb_true_iff, !andb_true_iff, !N.ltb_lt, !N.eqb_eq.
  intros [H1|[H1 H1']] [H2|[H2 H2']].
  - left; lia.
  - left; lia.
  - left; lia.
  - right. split; [lia|]. eapply IH; eassumption.
Qed.

Lemma N_leb_total a b : N.leb a b = true \/ N.leb b a = true.
Proof. rewrite !N.leb_le. lia. Qed.

Lemma N_leb_trans a b c : N.leb a b = true -> N.leb b c = true -> N.leb a c = true.
Proof. rewrite !N.leb_le. lia. Qed.

Lemma map_res_inr {A B} (f : A -> res B) l ys :
  map_res f l = inr ys -> Forall2 (fun x y => f x = inr y) l ys.
Proof.
  revert ys. induction l as [|x l IH]; cbn [map_res]; intros ys.
  - intros [= <-]. constructor.
  - destruct (f x) as [e|y] eqn:E; [discriminate|].
    destruct (map_res f l) as [e|ys'] eqn:E'; [discriminate|].
    intros [= <-]. constructor; [exact E|]. now apply IH.
Qed.

Lemma format_stream_fields `{P : Platform} s d :
  format_stream s = inr d -> si_itag d = itag s /\ si_resolution d = resolution s.
Proof.
  unfold format_stream. destruct (filesize s); [discriminate|].
  destruct (index _ 1%nat); [discriminate|]. intros [= <-]. split; reflexivity.
Qed.

Lemma formatted_resolutions `{P : Platform} l ds :
  map_res format_stream l = inr ds ->
  List.map si_itag ds = List.map itag l
  /\ List.map si_resolution ds = List.map resolution l.
Proof.
  intros H. apply map_res_inr in H.
  induction H as [|s d l ds Hd _ [IH1 IH2]]; [split; reflexivity|].
  apply format_stream_fields in Hd. destruct Hd as [H1 H2]. cbn [List.map].
  now rewrite H1, H2, IH1, IH2.
Qed.

Lemma str_eqb_eq a b : str_eqb a b = true <-> a = b.
Proof.
  revert b. induction a as [|x a IH]; intros [|y b]; cbn [str_eqb];
    try (split; [reflexivity || discriminate | reflexivity || discriminate]).
  rewrite andb_true_iff, N.eqb_eq, IH. split; [intros [-> ->]; reflexivity|].
  intros [= -> ->]. split; reflexivity.
Qed.

Lemma StronglySorted_weaken {A} (R Q : A -> A -> Prop) l :
  (forall a b, R a b -> Q a b) -> StronglySorted R l -> StronglySorted Q l.
Proof.
  intros HRQ. induction 1 as [|x l Hs IH Hx]; constructor; [exact IH|].
  eapply List.Forall_impl; [|exact Hx]. intros b. apply HRQ.
Qed.

Lemma order_by_resolution_perm l :
  Permutation (Pytube.order_by_resolution l) (List.filter Pytube.has_resolution l).
Proof.
  unfold Pytube.order_by_resolution. fold Pytube.has_resolution.
  destruct (forallb _ _); apply sorted_by_perm.
Qed.

Lemma order_by_resolution_sorted l :
  (forallb Pytube.parses (List.filter Pytube.has_resolution l) = true ->
   StronglySorted (fun a b => label_height (resolution a) <= label_height (resolution b))
     (Pytube.order_by_resolution l))
  /\ (forallb Pytube.parses (List.filter Pytube.has_resolution l) = false ->
      StronglySorted
        (fun a b => Pytube.str_leb (label_text (resolution a)) (label_text (resolution b))
                    = true)
        (Pytube.order_by_resolution l)).
Proof.
  unfold Pytube.order_by_resolution. fold Pytube.has_resolution. fold Pytube.parses.
  split; intros H; rewrite H.
  - eapply StronglySorted_weaken;
      [|apply (sorted_by_sorted N.leb _ N_leb_total N_leb_trans)].
    intros a b Hab. apply N.leb_le in Hab. exact Hab.
  - apply (sorted_by_sorted Pytube.str_leb _ str_leb_total str_leb_trans).
Qed.

Lemma StronglySorted_Forall2 {A B C} (g : A -> C) (h : B -> C) (R : C -> C -> Prop) l ds :
  Forall2 (fun s d => h d = g s) l ds ->
  StronglySorted (fun a b => R (g a) (g b)) l ->
  StronglySorted (fun a b => R (h a) (h b)) ds.
Proof.
  induction 1 as [|s d l ds Hd Hl IH]; intros Hs; [constructor|].
  inversion Hs as [|? ? Hs' Hall]; subst. constructor; [now apply IH|].
  clear IH Hs Hs'. rewrite Hd.
  induction Hl as [|s' d' l ds Hd' Hl IH]; [constructor|].
  inversion Hall; subst. constructor; [now rewrite Hd'|now apply IH].
Qed.

Lemma Forall2_In_l {A B} (Q : A -> B -> Prop) l ds s :
  Forall2 Q l ds -> In s l -> exists d, In d ds /\ Q s d.
Proof.
  induction 1 as [|s' d' l ds Hd Hl IH]; intros Hin; [destruct Hin|].
  destruct Hin as [->|Hin].
  - exists d'. split; [now left|exact Hd].
  - destruct (IH Hin) as (d & Hd1 & Hd2). exists d. split; [now right|exact Hd2].
Qed.

Lemma Forall2_In_r {A B} (Q : A -> B -> Prop) l ds d :
  Forall2 Q l ds -> In d ds -> exists s, In s l /\ Q s d.
Proof.
  induction 1 as [|s' d' l ds Hd Hl IH]; intros Hin; [destruct Hin|].
  destruct Hin as [->|Hin].
  - exists s'. split; [now left|exact Hd].
  - destruct (IH Hin) as (s & Hs1 & Hs2). exists s. split; [now right|exact Hs2].
Qed.

(** ** The matcher on the patterns of the validator *)

Lemma strip_prefix_spec l s s' : strip_prefix l s = Some s' <-> s = l ++ s'.
Proof.
  revert s. induction l as [|x l IH]; intros s; cbn [strip_prefix app].
  - split; [intros [= ->]; reflexivity|intros ->; reflexivity].
  - destruct s as [|y s]; [split; discriminate|].
    destruct (N.eqb_spec y x) as [->|Hne].
    + rewrite IH. split; [intros ->; reflexivity|intros [= ->]; reflexivity].
    + split; [discriminate|intros [= -> _]; congruence].
Qed.

Lemma strip_prefix_app l1 l2 s :
  strip_prefix (l1 ++ l2) s
  = match strip_prefix l1 s with
    | Some s' => strip_prefix l2 s'
    | None => None
    end.
Proof.
  revert s. induction l1 as [|x l1 IH]; intros s; cbn [strip_prefix app].
  - now destruct l2.
  - destruct s as [|y s]; [reflexivity|]. destruct (y =? x); [apply IH|reflexivity].
Qed.

Lemma rmatch_Lit l r s m k :
  rmatch (Lit l r) s m k
  = match strip_prefix l s with
    | Some s' => rmatch r s' m k
    | None => None
    end.
Proof.
  revert s. induction l as [|x l IH]; intros s; cbn [Lit strip_prefix rmatch].
  - reflexivity.
  - destruct s as [|y s]; [reflexivity|]. destruct (y =? x); [apply IH|reflexivity].
Qed.

Lemma take_drop_while p s : take_while p s ++ drop_while p s = s.
Proof.
  induction s as [|c s IH]; cbn [take_while drop_while]; [reflexivity|].
  destruct (p c); cbn [app]; [now rewrite IH|reflexivity].
Qed.

Lemma take_while_length_drop p s :
  take (length s - length (drop_while p s)) s = take_while p s.
Proof.
  rewrite <- (take_drop_while p s) at 1 3. rewrite length_app.
  replace (length (take_while p s) + length (drop_while p s)
           - length (drop_while p s))%nat
    with (length (take_while p s)) by lia.
  now rewrite take_app_length.
Qed.

Lemma cls_star_greedy {A} p s (k : str -> option A) :
  (forall t, k t <> None) -> cls_star p s k = k (drop_while p s).
Proof.
  intros Hk. induction s as [|c s IH]; cbn [cls_star drop_while]; [reflexivity|].
  destruct (p c); [|reflexivity]. rewrite IH.
  destruct (k (drop_while p s)) eqn:E; [reflexivity|]. now apply Hk in E.
Qed.

(** The last group of the domain pattern, followed by the end of the
    pattern, where group 0 is closed. *)
Lemma rmatch_domain_group (s0 u : str) (m : captures) :
  rmatch (Grp 2 (ClsPlus not_slash)) u m
    (fun s1 m1 => Some ((0%nat, take (length s0 - length s1) s0) :: m1))
  = match run_of_domain u with
    | Some d =>
      Some ((0%nat, take (length s0 - length (drop_while not_slash u)) s0)
              :: (2%nat, d) :: m)
    | None => None
    end.
Proof.
  cbn [rmatch]. unfold run_of_domain.
  destruct u as [|c u]; [reflexivity|].
  destruct (not_slash c) eqn:Hc.
  - assert (drop_while not_slash (c :: u) = drop_while not_slash u) as Hd
      by (cbn [drop_while]; now rewrite Hc).
    assert (take_while not_slash (c :: u) = c :: take_while not_slash u) as Ht
      by (cbn [take_while]; now rewrite Hc).
    rewrite cls_star_greedy by discriminate.
    rewrite Ht, <- Ht, <- (take_while_length_drop not_slash (c :: u)), Hd.
    reflexivity.
  - cbn [take_while]. now rewrite Hc.
Qed.

Lemma www_dot : py "www." = py "www" ++ [ch "."].
Proof. vm_compute. reflexivity. Qed.

Lemma rmatch_after_scheme (s0 t : str) (m : captures) :
  match rmatch (Lit (py "://")
                  (Cat (Opt (Grp 1 (Lit (py "www") (Chr (ch ".")))))
                       (Grp 2 (ClsPlus not_slash)))) t m
          (fun s1 m1 => Some ((0%nat, take (length s0 - length s1) s0) :: m1)) with
  | Some m' => group 2 m' = after_scheme t /\ after_scheme t <> None
  | None => after_scheme t = None
  end.
Proof.
  remember (Grp 2 (ClsPlus not_slash)) as G2 eqn:HG2.
  rewrite rmatch_Lit. unfold after_scheme.
  destruct (strip_prefix (py "://") t) as [t1|]; [|reflexivity].
  cbn [rmatch]. rewrite rmatch_Lit, www_dot, strip_prefix_app.
  destruct (strip_prefix (py "www") t1) as [t2|].
  - cbn [rmatch strip_prefix]. destruct t2 as [|c t2].
    + subst G2. rewrite rmatch_domain_group.
      destruct (run_of_domain t1); [split; [reflexivity|discriminate]|reflexivity].
    + destruct (c =? ch "."); subst G2.
      * rewrite !rmatch_domain_group. destruct (run_of_domain t2).
        { split; [reflexivity|discriminate]. }
        destruct (run_of_domain t1); [split; [reflexivity|discriminate]|reflexivity].
      * rewrite rmatch_domain_group.
        destruct (run_of_domain t1); [split; [reflexivity|discriminate]|reflexivity].
  - subst G2. rewrite rmatch_domain_group.
    destruct (run_of_domain t1); [split; [reflexivity|discriminate]|reflexivity].
Qed.

Lemma re_match_domain (s : str) :
  match re_match DOMAIN_RE s with
  | Some m => group 2 m = domain_at s /\ domain_at s <> None
  | None => domain_at s = None
  end.
Proof.
  unfold re_match, DOMAIN_RE, domain_at.
  remember (Lit (py "://")
              (Cat (Opt (Grp 1 (Lit (py "www") (Chr (ch ".")))))
                   (Grp 2 (ClsPlus not_slash)))) as R eqn:HR.
  cbn [rmatch]. rewrite rmatch_Lit.
  destruct (strip_prefix (py "http") s) as [s1|]; [|reflexivity].
  cbn [rmatch].
  destruct s1 as [|c s1].
  - subst R. apply (rmatch_after_scheme s [] []).
  - destruct (c =? ch "s").
    + pose proof (rmatch_after_scheme s s1 []) as H1. rewrite <- HR in H1.
      destruct (rmatch R s1 [] _) as [m1|].
      * destruct H1 as [H1 H1']. destruct (after_scheme s1); [|congruence].
        split; [exact H1|discriminate].
      * rewrite H1. subst R. apply (rmatch_after_scheme s (c :: s1) []).
    + subst R. apply (rmatch_after_scheme s (c :: s1) []).
Qed.

Lemma not_slash_spec c : not_slash c = true <-> c <> ch "/".
Proof. unfold not_slash. rewrite negb_true_iff, N.eqb_neq. reflexivity. Qed.

Lemma take_while_app_stop p d rest :
  Forall (fun c => p c = true) d ->
  (rest = [] \/ exists c r, rest = c :: r /\ p c = false) ->
  take_while p (d ++ rest) = d.
Proof.
  intros Hd Hr. induction Hd as [|c d Hc _ IH]; cbn [app take_while].
  - destruct Hr as [->|(c & r & -> & Hc)]; [reflexivity|].
    cbn [take_while]. now rewrite Hc.
  - now rewrite Hc, IH.
Qed.

Lemma take_while_all p s : Forall (fun c => p c = true) (take_while p s).
Proof.
  induction s as [|c s IH]; cbn [take_while]; [constructor|].
  destruct (p c) eqn:E; [now constructor|constructor].
Qed.

Lemma drop_while_stop p s :
  drop_while p s = [] \/ exists c r, drop_while p s = c :: r /\ p c = false.
Proof.
  induction s as [|c s IH]; cbn [drop_while]; [now left|].
  destruct (p c) eqn:E; [exact IH|]. right. now exists c, s.
Qed.

Lemma domain_run_spec u d : domain_run u d <-> take_while not_slash u = d.
Proof.
  split.
  - intros (rest & -> & Hd & Hr). apply take_while_app_stop.
    + eapply List.Forall_impl; [|exact Hd]. intros c. apply not_slash_spec.
    + destruct Hr as [->|(r & ->)]; [now left|]. right. exists (ch "/"), r.
      split; reflexivity.
  - intros <-. exists (drop_while not_slash u). split; [|split].
    + symmetry. apply take_drop_while.
    + eapply List.Forall_impl; [|apply take_while_all]. intros c. apply not_slash_spec.
    + destruct (drop_while_stop not_slash u) as [H|(c & r & H & Hc)]; [now left|].
      right. exists r. rewrite H. f_equal.
      unfold not_slash in Hc. apply negb_false_iff, N.eqb_eq in Hc. exact Hc.
Qed.

Lemma run_of_domain_spec u d :
  run_of_domain u = Some d <-> d <> [] /\ domain_run u d.
Proof.
  rewrite domain_run_spec. unfold run_of_domain.
  destruct (take_while not_slash u) as [|c r].
  - split; [discriminate|]. intros [H <-]. congruence.
  - split; [intros [= <-]; split; [discriminate|reflexivity]|].
    intros [_ <-]. reflexivity.
Qed.

Lemma run_of_domain_None u : run_of_domain u = None <-> take_while not_slash u = [].
Proof.
  unfold run_of_domain. destruct (take_while not_slash u); split; congruence.
Qed.

Lemma take_while_www t :
  take_while not_slash (py "www." ++ t) = py "www." ++ take_while not_slash t.
Proof. reflexivity. Qed.

Lemma after_scheme_spec t d :
  after_scheme t = Some d <->
  exists www rest,
    t = py "://" ++ www ++ d ++ rest
    /\ d <> []
    /\ Forall (fun c => c <> ch "/") d
    /\ (rest = [] \/ exists rest', rest = ch "/" :: rest')
    /\ (www = py "www."
        \/ (www = [] /\ ~ exists d', d' <> [] /\ d = py "www." ++ d')).
Proof.
  unfold after_scheme. split.
  - destruct (strip_prefix (py "://") t) as [t1|] eqn:E1; [|discriminate].
    apply strip_prefix_spec in E1. subst t.
    destruct (strip_prefix (py "www.") t1) as [t2|] eqn:E2.
    + apply strip_prefix_spec in E2. subst t1.
      destruct (run_of_domain t2) as [d2|] eqn:E3.
      * intros [= ->]. apply run_of_domain_spec in E3.
        destruct E3 as (Hne & rest & -> & Hd & Hr).
        exists (py "www."), rest. repeat split; auto.
      * intros E4. apply run_of_domain_spec in E4.
        destruct E4 as (Hne & rest & E4 & Hd & Hr).
        exists [], rest. cbn [app]. rewrite E4. repeat split; auto.
        right. split; [reflexivity|]. intros (d' & Hd' & ->).
        apply run_of_domain_None in E3.
        assert (t2 = d' ++ rest) as ->.
        { rewrite <- app_assoc in E4. now apply app_inv_head in E4. }
        rewrite take_while_app_stop in E3.
        -- congruence.
        -- apply Forall_app in Hd. destruct Hd as [_ Hd].
           eapply List.Forall_impl; [|exact Hd]. intros c. apply not_slash_spec.
        -- destruct Hr as [->|(r & ->)]; [now left|]. right. exists (ch "/"), r.
           split; reflexivity.
    + intros E4. apply run_of_domain_spec in E4.
      destruct E4 as (Hne & rest & -> & Hd & Hr).
      exists [], rest. cbn [app]. repeat split; auto.
      right. split; [reflexivity|]. intros (d' & Hd' & ->).
      rewrite <- app_assoc in E2.
      assert (strip_prefix (py "www.") (py "www." ++ d' ++ rest) = Some (d' ++ rest))
        as E by now apply strip_prefix_spec.
      congruence.
  - intros (www & rest & -> & Hne & Hd & Hr & Hw).
    assert (strip_prefix (py "://") (py "://" ++ www ++ d ++ rest)
            = Some (www ++ d ++ rest)) as -> by now apply strip_prefix_spec.
    assert (run_of_domain (d ++ rest) = Some d) as Hrun.
    { apply run_of_domain_spec. split; [exact Hne|]. now exists rest. }
    destruct Hw as [->|[-> Hw]].
    + assert (strip_prefix (py "www.") (py "www." ++ d ++ rest) = Some (d ++ rest))
        as -> by now apply strip_prefix_spec.
      now rewrite Hrun.
    + cbn [app]. destruct (strip_prefix (py "www.") (d ++ rest)) as [t2|] eqn:E2;
        [|exact Hrun].
      destruct (run_of_domain t2) as [d2|] eqn:E3; [|exact Hrun].
      exfalso. apply Hw. exists d2.
      apply strip_prefix_spec in E2. apply run_of_domain_spec in E3.
      destruct E3 as [Hne2 E3]. split; [exact Hne2|].
      apply domain_run_spec in E3.
      apply run_of_domain_spec in Hrun. destruct Hrun as [_ Hrun].
      apply domain_run_spec in Hrun.
      rewrite E2, take_while_www, E3 in Hrun. now symmetry.
Qed.

Lemma after_scheme_starts_with_colon t d :
  after_scheme t = Some d -> exists t', t = ch ":" :: t'.
Proof.
  intros H. apply after_scheme_spec in H. destruct H as (www & rest & -> & _).
  eexists. reflexivity.
Qed.

Lemma domain_at_spec s d : domain_at s = Some d <-> domain_here s d.
Proof.
  unfold domain_at, domain_here. split.
  - destruct (strip_prefix (py "http") s) as [s1|] eqn:E1; [|discriminate].
    apply strip_prefix_spec in E1. subst s.
    assert (after_scheme s1 = Some d ->
            exists scheme www rest,
              py "http" ++ s1 = scheme ++ py "://" ++ www ++ d ++ rest
              /\ (scheme = py "http" \/ scheme = py "https")
              /\ d <> [] /\ Forall (fun c => c <> ch "/") d
              /\ (rest = [] \/ exists rest', rest = ch "/" :: rest')
              /\ (www = py "www."
                  \/ (www = [] /\ ~ exists d', d' <> [] /\ d = py "www." ++ d')))
      as Hhttp.
    { intros H. apply after_scheme_spec in H.
      destruct H as (www & rest & -> & H). exists (py "http"), www, rest.
      split; [reflexivity|]. split; [now left|exact H]. }
    destruct s1 as [|c s1]; [exact Hhttp|].
    destruct (N.eqb_spec c (ch "s")) as [->|Hc]; [|exact Hhttp].
    destruct (after_scheme s1) as [d1|] eqn:E2; [|exact Hhttp].
    intros [= ->]. apply after_scheme_spec in E2.
    destruct E2 as (www & rest & -> & H). exists (py "https"), www, rest.
    split; [reflexivity|]. split; [now right|exact H].
  - intros (scheme & www & rest & -> & Hs & H).
    assert (after_scheme (py "://" ++ www ++ d ++ rest) = Some d) as Ha.
    { apply after_scheme_spec. now exists www, rest. }
    destruct Hs as [->| ->].
    + assert (strip_prefix (py "http") (py "http" ++ py "://" ++ www ++ d ++ rest)
              = Some (py "://" ++ www ++ d ++ rest)) as ->
        by now apply strip_prefix_spec.
      exact Ha.
    + assert (strip_prefix (py "http") (py "https" ++ py "://" ++ www ++ d ++ rest)
              = Some (ch "s" :: py "://" ++ www ++ d ++ rest)) as ->
        by now apply strip_prefix_spec.
      rewrite N.eqb_refl. now rewrite Ha.
Qed.

Lemma re_match_domain_Some s d :
  domain_here s d <->
  exists m, re_match DOMAIN_RE s = Some m /\ group 2 m = Some d.
Proof.
  rewrite <- domain_at_spec. pose proof (re_match_domain s) as H.
  destruct (re_match DOMAIN_RE s) as [m|].
  - destruct H as [H _]. split.
    + intros E. exists m. split; [reflexivity|congruence].
    + intros (m' & [= <-] & E). congruence.
  - split; [congruence|]. intros (m' & E & _). discriminate E.
Qed.

Lemma re_match_domain_None s :
  re_match DOMAIN_RE s = None <-> forall d, ~ domain_here s d.
Proof.
  pose proof (re_match_domain s) as H. split.
  - intros E d Hd. apply re_match_domain_Some in Hd.
    destruct Hd as (m & Hm & _). congruence.
  - intros Hno. destruct (re_match DOMAIN_RE s) as [m|]; [|reflexivity].
    destruct H as [H H']. destruct (domain_at s) as [d|] eqn:E; [|congruence].
    exfalso. apply (Hno d). now apply domain_at_spec.
Qed.

(** [re.search] finds the match at the first place that has one. *)
Lemma re_search_Some r url m :
  re_search r url = Some m <->
  exists pre s,
    url = pre ++ s /\ re_match r s = Some m
    /\ forall pre' s', url = pre' ++ s' -> (length pre' < length pre)%nat ->
                       re_match r s' = None.
Proof.
  split.
  - induction url as [|c u IH]; cbn [re_search].
    + destruct (re_match r []) as [m'|] eqn:E; [|discriminate].
      intros [= ->]. exists [], []. split; [reflexivity|]. split; [exact E|].
      intros pre' s' _ Hl. cbn [length] in Hl. lia.
    + destruct (re_match r (c :: u)) as [m'|] eqn:E.
      * intros [= ->]. exists [], (c :: u). split; [reflexivity|]. split; [exact E|].
        intros pre' s' _ Hl. cbn [length] in Hl. lia.
      * intros H. destruct (IH H) as (pre & s & -> & Hm & Hmin).
        exists (c :: pre), s. split; [reflexivity|]. split; [exact Hm|].
        intros pre' s' Hu Hl. destruct pre' as [|c' pre'].
        -- cbn [app] in Hu. subst s'. exact E.
        -- cbn [app] in Hu. injection Hu as <- Hu. apply (Hmin pre' s' Hu).
           cbn [length] in Hl. lia.
  - intros (pre & s & -> & Hm & Hmin). induction pre as [|c pre IH]; cbn [app].
    + destruct s; cbn [re_search]; now rewrite Hm.
    + cbn [re_search]. rewrite (Hmin [] (c :: pre ++ s) eq_refl) by (cbn [length]; lia).
      apply IH. intros pre' s' Hu Hl. apply (Hmin (c :: pre') s').
      * cbn [app]. now rewrite Hu.
      * cbn [length]. lia.
Qed.

Lemma re_search_None r url :
  re_search r url = None <-> forall pre s, url = pre ++ s -> re_match r s = None.
Proof.
  split.
  - induction url as [|c u IH]; cbn [re_search].
    + destruct (re_match r []) eqn:E; [discriminate|]. intros _ pre s Hu.
      symmetry in Hu. apply app_eq_nil in Hu. destruct Hu as [_ ->]. exact E.
    + destruct (re_match r (c :: u)) eqn:E; [discriminate|]. intros H pre s Hu.
      destruct pre as [|c' pre]; cbn [app] in Hu.
      * now subst s.
      * injection Hu as _ Hu. exact (IH H pre s Hu).
  - intros H. induction url as [|c u IH]; cbn [re_search].
    + now rewrite (H [] []).
    + rewrite (H [] (c :: u)) by reflexivity. apply IH. intros pre s ->.
      now apply (H (c :: pre) s).
Qed.

Lemma cls_rep_spec {A} n p s (k : str -> option A) :
  (forall t, k t <> None) ->
  (cls_rep n p s k <> None <->
   exists id post,
     s = id ++ post /\ length id = n /\ Forall (fun c => p c = true) id).
Proof.
  intros Hk. revert s. induction n as [|n IH]; intros s; cbn [cls_rep].
  - split; [|intros _; apply Hk]. intros _. exists [], s. repeat split. constructor.
  - destruct s as [|c s].
    + split; [congruence|]. intros (id & post & H & Hl & _).
      destruct id; [discriminate Hl|discriminate H].
    + destruct (p c) eqn:Hc.
      * rewrite IH. split.
        -- intros (id & post & -> & <- & Hid). exists (c :: id), post.
           repeat split. now constructor.
        -- intros (id & post & H & Hl & Hid). destruct id as [|c' id]; [discriminate Hl|].
           injection H as <- ->. injection Hl as <-. inversion Hid; subst.
           now exists id, post.
      * split; [congruence|]. intros (id & post & H & Hl & Hid).
        destruct id as [|c' id]; [discriminate Hl|]. injection H as <- ->.
        inversion Hid; subst. congruence.
Qed.

Lemma sep_v_eq : py "v=" = [ch "v"; ch "="].
Proof. reflexivity. Qed.

Lemma sep_slash : py "/" = [ch "/"].
Proof. reflexivity. Qed.

Lemma video_id_here_cases s :
  video_id_here s <->
  (exists t id post, s = ch "v" :: ch "=" :: t /\ t = id ++ post
                     /\ length id = 11%nat /\ Forall (fun c => id_char c = true) id)
  \/ (exists t id post, s = ch "/" :: t /\ t = id ++ post
                        /\ length id = 11%nat /\ Forall (fun c => id_char c = true) id).
Proof.
  unfold video_id_here. split.
  - intros (sep & id & post & -> & [->| ->] & Hl & Hid).
    + left. exists (id ++ post), id, post. rewrite sep_v_eq. now repeat split.
    + right. exists (id ++ post), id, post. rewrite sep_slash. now repeat split.
  - intros [(t & id & post & -> & -> & Hl & Hid)|(t & id & post & -> & -> & Hl & Hid)].
    + exists (py "v="), id, post. rewrite sep_v_eq. repeat split; auto.
    + exists (py "/"), id, post. rewrite sep_slash. repeat split; auto.
Qed.

Lemma re_match_video_id s : re_match VIDEO_ID_RE s <> None <-> video_id_here s.
Proof.
  rewrite video_id_here_cases.
  unfold re_match, VIDEO_ID_RE. cbn [rmatch].
  assert (forall t (k : str -> option captures), (forall u, k u <> None) ->
            (cls_rep 11 id_char t k <> None <->
             exists id post, t = id ++ post /\ length id = 11%nat
                             /\ Forall (fun c => id_char c = true) id)) as Hrep
    by (intros t k Hk; now apply cls_rep_spec).
  destruct s as [|c s].
  { split; [congruence|]. intros [(t & id & post & H & _)|(t & id & post & H & _)];
      discriminate H. }
  destruct (N.eqb_spec c (ch "v")) as [->|Hv].
  - replace (ch "v" =? ch "/") with false by reflexivity.
    destruct s as [|c2 s].
    { split; [congruence|].
      intros [(t & id & post & H & _)|(t & id & post & H & _)]; discriminate H. }
    destruct (N.eqb_spec c2 (ch "=")) as [->|He].
    + match goal with |- context [cls_rep 11 id_char s ?k] =>
        pose proof (Hrep s k ltac:(discriminate)) as Hs;
        destruct (cls_rep 11 id_char s k) as [m|] end.
      * split; [intros _|discriminate].
        destruct (proj1 Hs ltac:(discriminate)) as (id & post & Hs1 & Hl & Hid).
        left. now exists s, id, post.
      * split; [congruence|].
        intros [(t & id & post & H & Ht & Hl & Hid)|(t & id & post & H & _)].
        -- injection H as <-. apply Hs. now exists id, post.
        -- discriminate H.
    + split; [congruence|].
      intros [(t & id & post & H & _)|(t & id & post & H & _)].
      * exfalso. apply He. now injection H.
      * discriminate H.
  - destruct (N.eqb_spec c (ch "/")) as [->|Hs'].
    + match goal with |- context [cls_rep 11 id_char s ?k] =>
        pose proof (Hrep s k ltac:(discriminate)) as Hs;
        destruct (cls_rep 11 id_char s k) as [m|] end.
      * split; [intros _|discriminate].
        destruct (proj1 Hs ltac:(discriminate)) as (id & post & Hs1 & Hl & Hid).
        right. now exists s, id, post.
      * split; [congruence|].
        intros [(t & id & post & H & _)|(t & id & post & H & Ht & Hl & Hid)].
        -- discriminate H.
        -- injection H as <-. apply Hs. now exists id, post.
    + split; [congruence|].
      intros [(t & id & post & H & _)|(t & id & post & H & _)].
      * exfalso. apply Hv. now injection H.
      * exfalso. apply Hs'. now injection H.
Qed.

Lemma str_in_spec x xs : str_in x xs = true <-> In x xs.
Proof.
  unfold str_in. rewrite existsb_exists. split.
  - intros (y & Hy & E). apply str_eqb_eq in E. now subst.
  - intros H. exists x. split; [exact H|]. now apply str_eqb_eq.
Qed.

Lemma endswith_spec s p : endswith s p = true <-> exists pre, s = pre ++ p.
Proof.
  unfold endswith. rewrite andb_true_iff, Nat.leb_le, str_eqb_eq. split.
  - intros [Hl E]. exists (take (length s - length p) s).
    pose proof (take_drop (length s - length p) s) as H. rewrite E in H.
    now symmetry.
  - intros (pre & ->). rewrite length_app. split; [lia|].
    replace (length pre + length p - length p)%nat with (length pre) by lia.
    apply drop_app_length.
Qed.

Lemma allowed_domain_spec d :
  negb (str_in d ALLOWED_DOMAINS)
  && negb (existsb (fun a => endswith d a) ALLOWED_DOMAINS) = false
  <-> allowed_domain d.
Proof.
  unfold allowed_domain.
  rewrite andb_false_iff, !negb_false_iff, str_in_spec, existsb_exists.
  split; (intros [H|H]; [now left|right]).
  - destruct H as (a & Ha & E). apply endswith_spec in E. destruct E as (p & ->).
    now exists a, p.
  - destruct H as (a & p & Ha & ->). exists a. split; [exact Ha|].
    apply endswith_spec. now exists p.
Qed.

(** The domain the validator works with is the one the pattern's first
    match gives. *)
Lemma extracted_domain_search url d :
  extracted_domain url d <->
  exists m, re_search DOMAIN_RE url = Some m /\ group 2 m = Some d.
Proof.
  unfold extracted_domain. split.
  - intros (pre & s & -> & Hd & Hmin). apply re_match_domain_Some in Hd.
    destruct Hd as (m & Hm & Hg). exists m. split; [|exact Hg].
    apply re_search_Some. exists pre, s. split; [reflexivity|]. split; [exact Hm|].
    intros pre' s' Hu Hl. apply re_match_domain_None. intros d'.
    exact (Hmin pre' s' d' Hu Hl).
  - intros (m & Hs & Hg). apply re_search_Some in Hs.
    destruct Hs as (pre & s & -> & Hm & Hmin). exists pre, s.
    split; [reflexivity|]. split.
    + apply re_match_domain_Some. now exists m.
    + intros pre' s' d' Hu Hl. apply re_match_domain_None. exact (Hmin pre' s' Hu Hl).
Qed.

Lemma has_video_id_search url :
  has_video_id url <-> re_search VIDEO_ID_RE url <> None.
Proof.
  unfold has_video_id. split.
  - intros (pre & s & -> & Hs) E. apply re_match_video_id in Hs. apply Hs.
    exact (proj1 (re_search_None _ _) E pre s eq_refl).
  - intros H. destruct (re_search VIDEO_ID_RE url) as [m|] eqn:E; [|congruence].
    apply re_search_Some in E. destruct E as (pre & s & -> & Hm & _).
    exists pre, s. split; [reflexivity|]. apply re_match_video_id. congruence.
Qed.

Lemma is_valid_youtube_url_iff url :
  is_valid_youtube_url url = true <->
  exists d, extracted_domain url d /\ allowed_domain d /\ has_video_id url.
Proof.
  unfold is_valid_youtube_url, is_valid_youtube_url_try, match_group. split.
  - destruct (re_search DOMAIN_RE url) as [m|] eqn:Em; [|discriminate].
    destruct (group 2 m) as [d|] eqn:Eg; [|discriminate].
    destruct (negb (str_in d ALLOWED_DOMAINS)
              && negb (existsb (fun a => endswith d a) ALLOWED_DOMAINS)) eqn:Ea;
      [discriminate|].
    destruct (re_search VIDEO_ID_RE url) as [v|] eqn:Ev; [|discriminate].
    intros _. exists d. split; [|split].
    + apply extracted_domain_search. now exists m.
    + now apply allowed_domain_spec.
    + apply has_video_id_search. congruence.
  - intros (d & Hd & Ha & Hv). apply extracted_domain_search in Hd.
    destruct Hd as (m & -> & ->). apply allowed_domain_spec in Ha. rewrite Ha.
    apply has_video_id_search in Hv.
    destruct (re_search VIDEO_ID_RE url); [reflexivity|congruence].
Qed.

(** C4. [is_valid_youtube_url] returns [True] exactly for the URLs whose
    extracted domain (the one at the first place with [http://] or
    [https://], an optional [www.] and a run of characters other than
    [/]) is in the allow-list or ends with an entry of it, and which hold
    [v=] or [/] followed by eleven characters of [[0-9A-Za-z_-]]. Every
    exception in its body, as when the domain pattern finds nothing,
    gives [False]. The examples of the claim evaluate as it says. *)
Theorem is_valid_youtube_url_spec :
  (forall url,
     is_valid_youtube_url url = true <->
     exists d, extracted_domain url d /\ allowed_domain d /\ has_video_id url)
  /\ ALLOWED_DOMAINS = [py "youtube.com"; py "youtu.be"]
  /\ (forall url e, is_valid_youtube_url_try url = inl e ->
                    is_valid_youtube_url url = false)
  /\ (forall url, re_search DOMAIN_RE url = None -> is_valid_youtube_url url = false)
  /\ is_valid_youtube_url (py "https://www.youtube.com/watch?v=dQw4w9WgXcQ") = true
  /\ is_valid_youtube_url (py "https://vimeo.com/12345") = false
  /\ is_valid_youtube_url (py "https://youtu.be/short") = false
  /\ is_valid_youtube_url (py "www.youtube.com/watch?v=dQw4w9WgXcQ") = false.
Proof.
  split; [exact is_valid_youtube_url_iff|]. split; [reflexivity|].
  split; [|split].
  - intros url e H. unfold is_valid_youtube_url. now rewrite H.
  - intros url H. unfold is_valid_youtube_url, is_valid_youtube_url_try. now rewrite H.
  - repeat split; vm_compute; reflexivity.
Qed.

Section Claims.
Context {P : Platform}.

Lemma get_video_info_try_too_long video_id yt len st :
  YouTube (watch_url video_id) = inr yt ->
  yt_length yt = inr len ->
  (len > MAX_VIDEO_DURATION)%Z ->
  get_video_info_try video_id st
  = (inl (Exn ValueError duration_limit_message), requested (watch_url video_id) st).
Proof.
  intros Hyt Hlen Hgt.
  unfold get_video_info_try, new_YouTube. run.
  rewrite Hyt, Hlen.
  replace (len >? MAX_VIDEO_DURATION)%Z with true by (symmetry; apply Z.gtb_lt; lia).
  reflexivity.
Qed.

Lemma get_video_info_too_long video_id yt len st :
  YouTube (watch_url video_id) = inr yt ->
  yt_length yt = inr len ->
  (len > MAX_VIDEO_DURATION)%Z ->
  get_video_info video_id st
  = (inl (Exn ValueError (processing_error duration_limit_message)),
     logged (py "获取视频信息失败: " ++ duration_limit_message)
            (requested (watch_url video_id) st)).
Proof.
  intros Hyt Hlen Hgt.
  unfold get_video_info, try_except.
  rewrite (get_video_info_try_too_long _ _ _ _ Hyt Hlen Hgt).
  reflexivity.
Qed.

(** Whatever [get_video_info] raises is a [ValueError] with one of three
    messages. *)
Lemma get_video_info_raises video_id st e st' :
  get_video_info video_id st = (inl e, st') ->
  exn_cls e = ValueError /\
  (exn_str e = age_restricted_message \/ exn_str e = unavailable_message
   \/ exists detail, exn_str e = processing_error detail).
Proof.
  unfold get_video_info, try_except.
  destruct (get_video_info_try video_id st) as [[e0|info] st1]; [|discriminate].
  unfold get_video_info_except, bind, logger_error, raise.
  destruct (exn_cls e0); intros [= <- <-]; cbn [exn_cls exn_str];
    (split; [reflexivity|]).
  - now left.
  - now right; left.
  - right; right. now exists (exn_str e0).
  - right; right. now exists (exn_str e0).
Qed.

Lemma stream_video_raises video_id itag st e st' :
  stream_video video_id itag st = (inl e, st') ->
  exn_cls e = ValueError /\ exists detail, exn_str e = processing_error detail.
Proof.
  unfold stream_video, try_except.
  destruct (stream_video_try video_id itag st) as [[e0|r] st1]; [|discriminate].
  unfold stream_video_except, bind, logger_error, raise.
  intros [= <- <-]; cbn [exn_cls exn_str]. split; [reflexivity|].
  now exists (exn_str e0).
Qed.

Lemma stream_video_try_unknown_itag video_id itag yt q st :
  YouTube (watch_url video_id) = inr yt ->
  yt_streams yt = inr q ->
  get_by_itag q itag = inr None ->
  stream_video_try video_id itag st
  = (inl (Exn ValueError invalid_resolution_message), requested (watch_url video_id) st).
Proof.
  intros Hyt Hq Hi. unfold stream_video_try, new_YouTube. run.
  now rewrite Hyt, Hq, Hi.
Qed.

Lemma stream_video_unknown_itag video_id itag yt q st :
  YouTube (watch_url video_id) = inr yt ->
  yt_streams yt = inr q ->
  get_by_itag q itag = inr None ->
  stream_video video_id itag st
  = (inl (Exn ValueError (processing_error invalid_resolution_message)),
     logged (py "视频流处理失败: " ++ invalid_resolution_message)
            (requested (watch_url video_id) st)).
Proof.
  intros Hyt Hq Hi. unfold stream_video, try_except.
  now rewrite (stream_video_try_unknown_itag _ _ _ _ _ Hyt Hq Hi).
Qed.

Lemma on_buffer_last {A} (f : BytesIO -> res A * BytesIO) (b : BytesIO) st :
  on_buffer (length (heap st)) f (allocated b st)
  = (fst (f b), allocated (snd (f b)) st).
Proof.
  unfold on_buffer, allocated. simpl.
  rewrite lookup_app_r by lia. rewrite Nat.sub_diag. simpl.
  destruct (f b) as [r b']. simpl.
  rewrite insert_app_r_alt, Nat.sub_diag by lia.
  reflexivity.
Qed.

Lemma stream_video_success video_id itag yt q s t data size st :
  YouTube (watch_url video_id) = inr yt ->
  yt_streams yt = inr q ->
  get_by_itag q itag = inr (Some s) ->
  yt_title yt = inr t ->
  stream_data s = inr data ->
  filesize s = inr size ->
  stream_video video_id itag st
  = (inr (length (heap st), make_filename t (resolution s), size),
     allocated (fresh_buffer data) (requested (watch_url video_id) st)).
Proof.
  intros Hyt Hq Hi Ht Hd Hs.
  unfold stream_video, stream_video_try, new_YouTube, stream_to_buffer,
    BytesIO_new, try_except, bind, lift, ret, raise.
  rewrite Hyt; cbv beta iota. rewrite Hq; cbv beta iota.
  rewrite Hi; cbv beta iota. rewrite Ht; cbv beta iota.
  rewrite Hd; cbv beta iota.
  rewrite on_buffer_last. cbn [fst snd BytesIO_write BytesIO_empty fresh_buffer closed].
  cbv beta iota. rewrite on_buffer_last.
  cbn [fst snd BytesIO_seek closed]. cbv beta iota.
  rewrite Hs. cbn. unfold fresh_buffer. now rewrite app_nil_r.
Qed.

Lemma stream_video_inv video_id itag st h filename size st' :
  stream_video video_id itag st = (inr (h, filename, size), st') ->
  exists yt q s t data,
    YouTube (watch_url video_id) = inr yt /\
    yt_streams yt = inr q /\
    get_by_itag q itag = inr (Some s) /\
    yt_title yt = inr t /\
    stream_data s = inr data /\
    filesize s = inr size /\
    h = length (heap st) /\
    filename = make_filename t (resolution s) /\
    st' = allocated (fresh_buffer data) (requested (watch_url video_id) st).
Proof.
  intros H.
  destruct (YouTube (watch_url video_id)) as [e|yt] eqn:Hyt.
  { revert H. unfold stream_video, stream_video_try, new_YouTube. run.
    rewrite Hyt. discriminate. }
  destruct (yt_streams yt) as [e|q] eqn:Hq.
  { revert H. unfold stream_video, stream_video_try, new_YouTube. run.
    rewrite Hyt, Hq. discriminate. }
  destruct (get_by_itag q itag) as [e|[s|]] eqn:Hi.
  { revert H. unfold stream_video, stream_video_try, new_YouTube. run.
    rewrite Hyt, Hq, Hi. discriminate. }
  2:{ rewrite (stream_video_unknown_itag _ _ _ _ _ Hyt Hq Hi) in H. discriminate. }
  destruct (yt_title yt) as [e|t] eqn:Ht.
  { revert H. unfold stream_video, stream_video_try, new_YouTube. run.
    rewrite Hyt, Hq, Hi, Ht. discriminate. }
  destruct (stream_data s) as [e|data] eqn:Hd.
  { revert H. unfold stream_video, stream_video_try, new_YouTube, stream_to_buffer,
      BytesIO_new. run.
    rewrite Hyt, Hq, Hi, Ht, Hd. discriminate. }
  destruct (filesize s) as [e|size'] eqn:Hs.
  { revert H. unfold stream_video, stream_video_try, new_YouTube, stream_to_buffer,
      BytesIO_new, try_except, bind, lift, ret, raise.
    rewrite Hyt; cbv beta iota. rewrite Hq; cbv beta iota.
    rewrite Hi; cbv beta iota. rewrite Ht; cbv beta iota.
    rewrite Hd; cbv beta iota.
    rewrite on_buffer_last. cbn [fst snd BytesIO_write BytesIO_empty fresh_buffer closed].
    cbv beta iota. rewrite on_buffer_last.
    cbn [fst snd BytesIO_seek closed]. cbv beta iota.
    rewrite Hs. discriminate. }
  rewrite (stream_video_success _ _ _ _ _ _ _ _ _ Hyt Hq Hi Ht Hd Hs) in H.
  injection H as <- <- <- <-.
  exists yt, q, s, t, data. repeat split; auto.
Qed.


Lemma video_info_with_id request video_id st :
  args_get (args request) (py "video_id") = Some video_id ->
  video_id <> [] ->
  video_info request st =
    match get_video_info video_id st with
    | (inr info, st') => (inr (jsonify (JsonInfo info) 200), st')
    | (inl e, st') => video_info_except e st'
    end.
Proof.
  intros H Hne. unfold video_info, video_info_try, try_except, bind, ret.
  rewrite H. destruct video_id as [|c v]; [congruence|]. cbn [falsy default from_option id].
  destruct (get_video_info (c :: v) st) as [[e|i] st']; reflexivity.
Qed.

Lemma download_with_parameters request video_id itag st :
  args_get (args request) (py "video_id") = Some video_id ->
  args_get (args request) (py "resolution") = Some itag ->
  video_id <> [] -> itag <> [] ->
  download request st =
    match stream_video video_id itag st with
    | (inr (byte_stream, filename, file_size), st') =>
      (inr (with_header (py "Accept-Ranges") (py "bytes")
             (with_header (py "Content-Length") (str_of_Z file_size)
               (with_header (py "Content-Disposition")
                            (py "attachment; filename=" ++ filename)
                 (Response_new {| gen_byte_stream := byte_stream;
                                  gen_status_of := GenCreated |}
                               (py "video/mp4"))))), st')
    | (inl e, st') => download_except e st'
    end.
Proof.
  intros Hv Hi Hne1 Hne2. unfold download, download_try, try_except, bind, ret.
  rewrite Hv, Hi. destruct video_id as [|c v]; [congruence|].
  destruct itag as [|d i]; [congruence|]. cbn [falsy default from_option id orb].
  destruct (stream_video (c :: v) (d :: i) st) as [[e|[[h f] z]] st']; reflexivity.
Qed.

Lemma video_info_except_ValueError m st :
  video_info_except (Exn ValueError m) st = (inr (jsonify (JsonError m) 400), st).
Proof. reflexivity. Qed.

Lemma download_except_ValueError m st :
  download_except (Exn ValueError m) st = (inr (jsonify (JsonError m) 400), st).
Proof. reflexivity. Qed.

(** C1. When the extractor reports a length over [MAX_VIDEO_DURATION]
    (3600 seconds), [get_video_info] fails with a [ValueError]: it
    returns no [VideoInfo], whatever the state, and [video_info] answers
    the request with status 400 and that error's message. *)
Theorem get_video_info_rejects_over_limit video_id yt len st :
  YouTube (watch_url video_id) = inr yt ->
  yt_length yt = inr len ->
  (len > MAX_VIDEO_DURATION)%Z ->
  MAX_VIDEO_DURATION = 3600%Z /\
  get_video_info video_id st
  = (inl (Exn ValueError (processing_error duration_limit_message)),
     logged (py "获取视频信息失败: " ++ duration_limit_message)
            (requested (watch_url video_id) st)) /\
  (forall info st', get_video_info video_id st <> (inr info, st')) /\
  (forall request,
     args_get (args request) (py "video_id") = Some video_id ->
     video_id <> [] ->
     video_info request st
     = (inr (jsonify (JsonError (processing_error duration_limit_message)) 400),
        logged (py "获取视频信息失败: " ++ duration_limit_message)
               (requested (watch_url video_id) st))).
Proof.
  intros Hyt Hlen Hgt.
  pose proof (get_video_info_too_long video_id yt len st Hyt Hlen Hgt) as E.
  split; [reflexivity|]. split; [exact E|]. split.
  - intros info st'. rewrite E. discriminate.
  - intros request Hv Hne.
    rewrite (video_info_with_id request video_id st Hv Hne), E.
    apply video_info_except_ValueError.
Qed.

Lemma stream_video_heap_unchanged video_id itag st :
  (forall yt q s, YouTube (watch_url video_id) = inr yt ->
                  yt_streams yt = inr q -> get_by_itag q itag <> inr (Some s)) ->
  heap (snd (stream_video video_id itag st)) = heap st.
Proof.
  intros Hno.
  unfold stream_video, stream_video_try, new_YouTube, try_except, bind, lift,
    raise, stream_video_except, logger_error.
  destruct (YouTube (watch_url video_id)) as [e|yt] eqn:Hyt; [reflexivity|].
  cbv beta iota.
  destruct (yt_streams yt) as [e|q] eqn:Hq; [reflexivity|].
  cbv beta iota.
  destruct (get_by_itag q itag) as [e|[s|]] eqn:Hi; [reflexivity| |reflexivity].
  exfalso. exact (Hno yt q s eq_refl Hq Hi).
Qed.

(** C2, as amended. When [get_by_itag] finds no stream for the itag,
    [stream_video] fails with a [ValueError] whose message is the
    processing-error prefix followed by the invalid-resolution message,
    [download] answers 400 with that message, and the heap of buffers is
    as it was. No call of [stream_video] changes the heap unless the
    lookup returned a stream: the buffer is created after the lookup. *)
Theorem stream_video_rejects_unknown_itag :
  (forall video_id itag yt q st,
     YouTube (watch_url video_id) = inr yt ->
     yt_streams yt = inr q ->
     get_by_itag q itag = inr None ->
     stream_video video_id itag st
     = (inl (Exn ValueError (processing_error invalid_resolution_message)),
        logged (py "视频流处理失败: " ++ invalid_resolution_message)
               (requested (watch_url video_id) st))
     /\ heap (snd (stream_video video_id itag st)) = heap st
     /\ forall request,
          args_get (args request) (py "video_id") = Some video_id ->
          args_get (args request) (py "resolution") = Some itag ->
          video_id <> [] -> itag <> [] ->
          download request st
          = (inr (jsonify (JsonError (processing_error invalid_resolution_message)) 400),
             logged (py "视频流处理失败: " ++ invalid_resolution_message)
                    (requested (watch_url video_id) st)))
  /\ (forall video_id itag st,
        heap (snd (stream_video video_id itag st)) <> heap st ->
        exists yt q s,
          YouTube (watch_url video_id) = inr yt /\ yt_streams yt = inr q
          /\ get_by_itag q itag = inr (Some s)).
Proof.
  split.
  - intros video_id itag yt q st Hyt Hq Hi.
    pose proof (stream_video_unknown_itag video_id itag yt q st Hyt Hq Hi) as E.
    split; [exact E|]. split; [now rewrite E|].
    intros request Hv Hr Hne1 Hne2.
    rewrite (download_with_parameters request video_id itag st Hv Hr Hne1 Hne2), E.
    apply download_except_ValueError.
  - intros video_id itag st Hheap.
    destruct (YouTube (watch_url video_id)) as [e|yt] eqn:Hyt.
    { exfalso. apply Hheap, stream_video_heap_unchanged. intros yt q s H. congruence. }
    destruct (yt_streams yt) as [e|q] eqn:Hq.
    { exfalso. apply Hheap, stream_video_heap_unchanged. intros yt' q s H H'. congruence. }
    destruct (get_by_itag q itag) as [e|[s|]] eqn:Hi.
    + exfalso. apply Hheap, stream_video_heap_unchanged. intros yt' q' s H H'. congruence.
    + now exists yt, q, s.
    + exfalso. apply Hheap, stream_video_heap_unchanged. intros yt' q' s H H'. congruence.
Qed.

(** C9. The generic handlers of [get_video_info] and [stream_video] treat
    a [ValueError] like any other exception: they log it and raise a
    [ValueError] with the processing-error prefix. So the [ValueError]
    raised in the [try] for a video over the duration limit, and the one
    raised for an unknown itag, reach the caller only in the prefixed
    form, which the handlers turn into a 400; neither function ever
    raises the bare duration-limit or invalid-resolution message. *)
Theorem deliberate_ValueError_is_wrapped :
  (forall m st,
     get_video_info_except (Exn ValueError m) st
     = (inl (Exn ValueError (processing_error m)),
        logged (py "获取视频信息失败: " ++ m) st))
  /\ (forall m st,
        stream_video_except (Exn ValueError m) st
        = (inl (Exn ValueError (processing_error m)),
           logged (py "视频流处理失败: " ++ m) st))
  /\ (forall video_id yt len st,
        YouTube (watch_url video_id) = inr yt ->
        yt_length yt = inr len ->
        (len > MAX_VIDEO_DURATION)%Z ->
        fst (get_video_info_try video_id st)
          = inl (Exn ValueError duration_limit_message)
        /\ fst (get_video_info video_id st)
          = inl (Exn ValueError (processing_error duration_limit_message))
        /\ forall request,
             args_get (args request) (py "video_id") = Some video_id ->
             video_id <> [] ->
             fst (video_info request st)
             = inr (jsonify (JsonError (processing_error duration_limit_message)) 400))
  /\ (forall video_id itag yt q st,
        YouTube (watch_url video_id) = inr yt ->
        yt_streams yt = inr q ->
        get_by_itag q itag = inr None ->
        fst (stream_video_try video_id itag st)
          = inl (Exn ValueError invalid_resolution_message)
        /\ fst (stream_video video_id itag st)
          = inl (Exn ValueError (processing_error invalid_resolution_message))
        /\ forall request,
             args_get (args request) (py "video_id") = Some video_id ->
             args_get (args request) (py "resolution") = Some itag ->
             video_id <> [] -> itag <> [] ->
             fst (download request st)
             = inr (jsonify (JsonError (processing_error invalid_resolution_message)) 400))
  /\ (forall video_id st,
        fst (get_video_info video_id st) <> inl (Exn ValueError duration_limit_message))
  /\ (forall video_id itag st,
        fst (stream_video video_id itag st)
        <> inl (Exn ValueError invalid_resolution_message)).
Proof.
  split; [reflexivity|]. split; [reflexivity|]. split; [|split; [|split]].
  - intros video_id yt len st Hyt Hlen Hgt.
    rewrite (get_video_info_try_too_long _ _ _ _ Hyt Hlen Hgt).
    pose proof (get_video_info_too_long video_id yt len st Hyt Hlen Hgt) as E.
    rewrite E. split; [reflexivity|]. split; [reflexivity|].
    intros request Hv Hne.
    now rewrite (video_info_with_id request video_id st Hv Hne), E.
  - intros video_id itag yt q st Hyt Hq Hi.
    rewrite (stream_video_try_unknown_itag _ _ _ _ _ Hyt Hq Hi).
    pose proof (stream_video_unknown_itag video_id itag yt q st Hyt Hq Hi) as E.
    rewrite E. split; [reflexivity|]. split; [reflexivity|].
    intros request Hv Hr Hne1 Hne2.
    now rewrite (download_with_parameters request video_id itag st Hv Hr Hne1 Hne2), E.
  - intros video_id st H.
    destruct (get_video_info video_id st) as [[e|i] st'] eqn:E; [|discriminate].
    apply get_video_info_raises in E. destruct E as [_ E].
    cbn [fst] in H. injection H as ->. cbn [exn_str] in E.
    destruct E as [E|[E|[d E]]].
    + vm_compute in E. discriminate E.
    + vm_compute in E. discriminate E.
    + symmetry in E. exact (duration_message_not_wrapped d E).
  - intros video_id itag st H.
    destruct (stream_video video_id itag st) as [[e|i] st'] eqn:E; [|discriminate].
    apply stream_video_raises in E. destruct E as [_ [d E]].
    cbn [fst] in H. injection H as ->. cbn [exn_str] in E.
    symmetry in E. exact (invalid_resolution_not_wrapped d E).
Qed.

(** C10. A request whose [video_id] is missing or empty gets the
    missing-parameter 400 of [video_info]; a request whose [video_id] or
    [resolution] is missing or empty gets the one of [download]. The
    state is left as it was: nothing is logged and the extractor is not
    called. The test is [not x], true of [None] and of the empty string
    alike. *)
Theorem empty_parameter_counts_as_missing request st :
  (falsy (args_get (args request) (py "video_id")) = true ->
   video_info request st
   = (inr (jsonify (JsonError missing_video_id_message) 400), st))
  /\ (falsy (args_get (args request) (py "video_id")) = true
      \/ falsy (args_get (args request) (py "resolution")) = true ->
      download request st
      = (inr (jsonify (JsonError missing_parameters_message) 400), st))
  /\ falsy (Some []) = true /\ falsy None = true.
Proof.
  split; [|split; [|split; reflexivity]].
  - intros H. unfold video_info, video_info_try, try_except, ret. now rewrite H.
  - intros H. unfold download, download_try, try_except, ret.
    replace (falsy (args_get (args request) (py "video_id"))
             || falsy (args_get (args request) (py "resolution"))) with true.
    + reflexivity.
    + symmetry. apply orb_true_iff. exact H.
Qed.

(** C8. [video_info] maps failures as follows: no [video_id], 400 with
    the missing-video-ID message; a [ValueError] from [get_video_info],
    400 with that error's message; in its [except] clauses, any exception
    of another class, 500 with the internal-error message, the detail
    going to the log and not into the response. With the pipeline of this
    file, which only raises [ValueError], every request is answered with
    200 or 400. *)
Theorem video_info_error_mapping :
  (forall request st,
     args_get (args request) (py "video_id") = None ->
     video_info request st
     = (inr (jsonify (JsonError missing_video_id_message) 400), st))
  /\ (forall request video_id st m st',
        args_get (args request) (py "video_id") = Some video_id ->
        video_id <> [] ->
        get_video_info video_id st = (inl (Exn ValueError m), st') ->
        video_info request st = (inr (jsonify (JsonError m) 400), st'))
  /\ (forall e st,
        exn_cls e <> ValueError ->
        video_info_except e st
        = (inr (jsonify (JsonError internal_error_message) 500),
           logged (py "API错误: " ++ exn_str e) st))
  /\ (forall m st,
        video_info_except (Exn ValueError m) st
        = (inr (jsonify (JsonError m) 400), st))
  /\ (forall request st, exists response st',
        video_info request st = (inr response, st')
        /\ (status response = 200 \/ status response = 400)).
Proof.
  split; [|split; [|split; [|split]]].
  - intros request st H. unfold video_info, video_info_try, try_except, ret.
    now rewrite H.
  - intros request video_id st m st' Hv Hne E.
    now rewrite (video_info_with_id request video_id st Hv Hne), E.
  - intros [c m] st Hc. unfold video_info_except, bind, logger_error, ret.
    destruct c; cbn [exn_cls exn_str] in *; try reflexivity. congruence.
  - reflexivity.
  - intros request st.
    destruct (falsy (args_get (args request) (py "video_id"))) eqn:F.
    + exists (jsonify (JsonError missing_video_id_message) 400), st. split.
      * unfold video_info, video_info_try, try_except, ret. now rewrite F.
      * right; reflexivity.
    + destruct (args_get (args request) (py "video_id")) as [[|c v]|] eqn:Hv;
        try discriminate F.
      rewrite (video_info_with_id request (c :: v) st Hv) by discriminate.
      destruct (get_video_info (c :: v) st) as [[e|info] st'] eqn:E.
      * destruct (get_video_info_raises _ _ _ _ E) as [Hc _].
        destruct e as [k m]. cbn [exn_cls] in Hc. subst k.
        exists (jsonify (JsonError m) 400), st'. split; [reflexivity|].
        right; reflexivity.
      * exists (jsonify (JsonInfo info) 200), st'. split; [reflexivity|].
        left; reflexivity.
Qed.

Lemma re_sub_cls_filter (p : char -> bool) (s : str) :
  re_sub_cls p [] s = List.filter (fun c => negb (p c)) s.
Proof.
  induction s as [|c s IH]; [reflexivity|].
  cbn [re_sub_cls List.filter]. destruct (p c); cbn [negb app]; now rewrite IH.
Qed.

(** C6, as amended. The filename is a function of title and resolution:
    the title without its characters outside word characters, hyphen,
    underscore, period and space, in their order, then [_], the
    resolution and [.mp4]. For the title "Foo: Bar/Baz" at "720p" it is
    "Foo BarBaz_720p.mp4". The filename a successful [stream_video]
    returns is this function of the video's title and the stream's
    resolution. *)
Theorem make_filename_strips_and_appends :
  (forall title resolution,
     make_filename title resolution
     = List.filter (fun c => negb (unsafe_char c)) title
       ++ py "_" ++ format_opt_str resolution ++ py ".mp4")
  /\ (forall c,
        unsafe_char c = false <->
        (is_word c = true \/ c = ch "-" \/ c = ch "_" \/ c = ch "." \/ c = ch " "))
  /\ make_filename (py "Foo: Bar/Baz") (Some (py "720p")) = py "Foo BarBaz_720p.mp4"
  /\ (forall video_id itag st h filename size st',
        stream_video video_id itag st = (inr (h, filename, size), st') ->
        exists yt q s t,
          YouTube (watch_url video_id) = inr yt /\ yt_streams yt = inr q
          /\ get_by_itag q itag = inr (Some s) /\ yt_title yt = inr t
          /\ filename = make_filename t (resolution s)).
Proof.
  split; [|split; [|split]].
  - intros title resolution. unfold make_filename. now rewrite re_sub_cls_filter.
  - intros c. unfold unsafe_char. rewrite negb_false_iff, !orb_true_iff, !N.eqb_eq.
    tauto.
  - vm_compute. reflexivity.
  - intros video_id itag st h filename size st' H.
    apply stream_video_inv in H.
    destruct H as (yt & q & s & t & data & Hyt & Hq & Hi & Ht & _ & _ & _ & Hf & _).
    now exists yt, q, s, t.
Qed.


Lemma video_info_missing request st :
  falsy (args_get (args request) (py "video_id")) = true ->
  video_info request st
  = (inr (jsonify (JsonError missing_video_id_message) 400), st).
Proof.
  intros H. unfold video_info, video_info_try, try_except, ret. now rewrite H.
Qed.

Lemma download_missing request st :
  falsy (args_get (args request) (py "video_id")) = true
  \/ falsy (args_get (args request) (py "resolution")) = true ->
  download request st
  = (inr (jsonify (JsonError missing_parameters_message) 400), st).
Proof.
  intros H. unfold download, download_try, try_except, ret.
  replace (falsy (args_get (args request) (py "video_id"))
           || falsy (args_get (args request) (py "resolution"))) with true.
  - reflexivity.
  - symmetry. apply orb_true_iff. exact H.
Qed.

(** The chunks a client that stays to the end is sent. *)
Lemma serve_to_the_end g st data n :
  gen_status_of g <> GenDone ->
  heap st !! gen_byte_stream g = Some (fresh_buffer data) ->
  (length data < n)%nat ->
  exists cs st',
    serve n g st = (cs, gen_at GenDone g, st')
    /\ concat cs = data
    /\ Forall (fun c => c <> [] /\ N.of_nat (length c) <= chunk_size) cs
    /\ (forall i c, cs !! i = Some c -> (S i < length cs)%nat ->
                    N.of_nat (length c) = chunk_size)
    /\ exists b, heap st' !! gen_byte_stream g = Some b
                 /\ closed b = true /\ closes b = 1%nat.
Proof.
  intros Hg Hb Hn.
  pose proof (serve_run n g st _ Hg Hb eq_refl) as E.
  assert (remaining (fresh_buffer data) = data) as Hr by apply dropN_0.
  rewrite Hr in E.
  destruct (split_chunks_all n chunk_size data) as [Hc Hl]; [reflexivity|exact Hn|].
  eexists _, _. split; [exact E|]. split; [exact Hc|].
  split; [apply split_chunks_sizes|]. split; [apply split_chunks_full|].
  exists (after_serve n (fresh_buffer data)). split.
  - unfold with_heap; cbn [heap]. apply list_lookup_insert_eq.
    eapply lookup_lt_Some; exact Hb.
  - unfold after_serve. rewrite Hr.
    replace (length (split_chunks n chunk_size data) <? n)%nat with true
      by (symmetry; apply Nat.ltb_lt; exact Hl).
    split; reflexivity.
Qed.

(** C7. A response of [download] with status 200 carries exactly the
    headers Content-Type: video/mp4, Content-Disposition: attachment;
    filename= followed by the derived filename, Content-Length: the
    stream's filesize in decimal, and Accept-Ranges: bytes. A client that
    stays to the end is sent the stream's data in chunks that are never
    empty, never longer than [chunk_size] = 1048576 bytes, and all of
    exactly that size except the last. A request without [video_id] or
    without [resolution] gets 400. *)
Theorem download_response_shape :
  (forall request st response st',
     download request st = (inr response, st') ->
     status response = 200 ->
     exists video_id itag yt q s title data size g,
       args_get (args request) (py "video_id") = Some video_id
       /\ args_get (args request) (py "resolution") = Some itag
       /\ YouTube (watch_url video_id) = inr yt
       /\ yt_streams yt = inr q
       /\ get_by_itag q itag = inr (Some s)
       /\ yt_title yt = inr title
       /\ stream_data s = inr data
       /\ filesize s = inr size
       /\ headers response
          = [(py "Content-Type", py "video/mp4");
             (py "Content-Disposition",
              py "attachment; filename=" ++ make_filename title (resolution s));
             (py "Content-Length", str_of_Z size);
             (py "Accept-Ranges", py "bytes")]
       /\ body_of response = Streamed g
       /\ forall n, (length data < n)%nat ->
          exists chunks st'',
            serve n g st' = (chunks, gen_at GenDone g, st'')
            /\ concat chunks = data
            /\ Forall (fun c => c <> [] /\ N.of_nat (length c) <= chunk_size) chunks
            /\ (forall i c, chunks !! i = Some c -> (S i < length chunks)%nat ->
                            N.of_nat (length c) = chunk_size))
  /\ chunk_size = 1048576
  /\ (forall request st,
        args_get (args request) (py "video_id") = None
        \/ args_get (args request) (py "resolution") = None ->
        download request st
        = (inr (jsonify (JsonError missing_parameters_message) 400), st)).
Proof.
  split; [|split; [reflexivity|]].
  - intros request st response st' H H200.
    destruct (falsy (args_get (args request) (py "video_id"))) eqn:F1.
    { rewrite download_missing in H by now left. injection H as Hr Hst. subst response. discriminate H200. }
    destruct (falsy (args_get (args request) (py "resolution"))) eqn:F2.
    { rewrite download_missing in H by now right. injection H as Hr Hst. subst response. discriminate H200. }
    destruct (args_get (args request) (py "video_id")) as [[|c v]|] eqn:Hv;
      try discriminate F1.
    destruct (args_get (args request) (py "resolution")) as [[|d i]|] eqn:Hi;
      try discriminate F2.
    rewrite (download_with_parameters request (c :: v) (d :: i) st Hv Hi) in H
      by discriminate.
    destruct (stream_video (c :: v) (d :: i) st) as [[e|[[h f] z]] st1] eqn:E.
    { destruct (download_except_status e st1) as (msg & code & E' & Hcode).
      rewrite E' in H. injection H as Hr Hst. subst response.
      cbn [status jsonify] in H200.
      destruct Hcode as [Hc|Hc]; rewrite Hc in H200; discriminate H200. }
    injection H as Hr Hst. subst response st'.
    apply stream_video_inv in E.
    destruct E as (yt & q & s & t & data & Hyt & Hq & Hit & Ht & Hd & Hs & -> & -> & ->).
    exists (c :: v), (d :: i), yt, q, s, t, data, z,
      {| gen_byte_stream := length (heap st); gen_status_of := GenCreated |}.
    do 8 (split; [first [assumption | reflexivity]|]).
    split; [apply download_headers|]. split; [reflexivity|].
    intros n Hn.
    destruct (serve_to_the_end
                {| gen_byte_stream := length (heap st); gen_status_of := GenCreated |}
                (allocated (fresh_buffer data) (requested (watch_url (c :: v)) st))
                data n) as (cs & st'' & E1 & E2 & E3 & E4 & _).
    + discriminate.
    + unfold allocated, requested; cbn [heap gen_byte_stream].
      rewrite lookup_app_r by lia. now rewrite Nat.sub_diag.
    + exact Hn.
    + now exists cs, st''.
  - intros request st [H|H]; apply download_missing; rewrite H; [now left|now right].
Qed.


Lemma get_video_info_except_raises e st :
  exists e' st', get_video_info_except e st = (inl e', st').
Proof.
  unfold get_video_info_except, bind, logger_error, raise.
  destruct (exn_cls e); eexists _, _; reflexivity.
Qed.

Lemma get_video_info_inv video_id st info st' :
  get_video_info video_id st = (inr info, st') ->
  exists yt q,
    YouTube (watch_url video_id) = inr yt
    /\ yt_length yt = inr (vi_duration info)
    /\ (vi_duration info <= MAX_VIDEO_DURATION)%Z
    /\ yt_streams yt = inr q
    /\ map_res format_stream (selected_streams q) = inr (vi_streams info)
    /\ yt_title yt = inr (vi_title info)
    /\ yt_author yt = inr (vi_author info)
    /\ yt_thumbnail_url yt = inr (vi_thumbnail_url info)
    /\ st' = requested (watch_url video_id) st.
Proof.
  unfold get_video_info, try_except.
  destruct (get_video_info_try video_id st) as [[e|i] st1] eqn:E.
  { destruct (get_video_info_except_raises e st1) as (e' & st2 & ->). discriminate. }
  intros [= <- <-].
  unfold get_video_info_try, bind, new_YouTube, lift, ret, raise in E.
  destruct (YouTube (watch_url video_id)) as [e|yt] eqn:Hyt; [discriminate|].
  cbv beta iota in E.
  destruct (yt_length yt) as [e|len] eqn:Hlen; [discriminate|].
  cbv beta iota in E.
  destruct (len >? MAX_VIDEO_DURATION)%Z eqn:Hgt; [discriminate|].
  cbv beta iota in E.
  destruct (yt_streams yt) as [e|q] eqn:Hq; [discriminate|].
  cbv beta iota zeta in E.
  destruct (map_res format_stream (selected_streams q)) as [e|fs] eqn:Hfs;
    [discriminate|].
  cbv beta iota in E.
  destruct (yt_title yt) as [e|title] eqn:Ht; [discriminate|].
  cbv beta iota in E.
  destruct (yt_author yt) as [e|author] eqn:Ha; [discriminate|].
  cbv beta iota in E.
  destruct (yt_thumbnail_url yt) as [e|thumb] eqn:Hth; [discriminate|].
  injection E as <- <-. cbn [vi_duration vi_streams vi_title vi_author vi_thumbnail_url].
  exists yt, q. repeat (split; [assumption || reflexivity|]).
  split; [|repeat (split; [assumption || reflexivity|]); reflexivity].
  rewrite Z.gtb_ltb in Hgt. apply Z.ltb_ge. exact Hgt.
Qed.

Lemma get_video_info_success video_id yt q info st :
  YouTube (watch_url video_id) = inr yt ->
  yt_length yt = inr (vi_duration info) ->
  (vi_duration info <= MAX_VIDEO_DURATION)%Z ->
  yt_streams yt = inr q ->
  map_res format_stream (selected_streams q) = inr (vi_streams info) ->
  yt_title yt = inr (vi_title info) ->
  yt_author yt = inr (vi_author info) ->
  yt_thumbnail_url yt = inr (vi_thumbnail_url info) ->
  get_video_info video_id st = (inr info, requested (watch_url video_id) st).
Proof.
  intros Hyt Hlen Hle Hq Hfs Ht Ha Hth.
  unfold get_video_info, try_except, get_video_info_try, bind, new_YouTube, lift,
    ret, raise.
  rewrite Hyt; cbv beta iota. rewrite Hlen; cbv beta iota.
  replace (vi_duration info >? MAX_VIDEO_DURATION)%Z with false
    by (symmetry; rewrite Z.gtb_ltb; apply Z.ltb_ge; exact Hle).
  cbv beta iota. rewrite Hq; cbv beta iota zeta. rewrite Hfs; cbv beta iota.
  rewrite Ht; cbv beta iota. rewrite Ha; cbv beta iota. rewrite Hth; cbv beta iota.
  now destruct info.
Qed.

Lemma selected_streams_In q s :
  In s (selected_streams q) <->
  In s (fmt_streams q) /\ subtype s = py "mp4" /\ is_progressive s = true
  /\ resolution s <> None.
Proof.
  unfold selected_streams, Pytube.desc. rewrite <- in_rev.
  assert (In s (Pytube.order_by_resolution
                  (Pytube.filter_mp4_progressive (fmt_streams q)))
          <-> In s (List.filter Pytube.has_resolution
                      (Pytube.filter_mp4_progressive (fmt_streams q)))) as ->.
  { split; apply Permutation_in;
      [|symmetry]; apply order_by_resolution_perm. }
  unfold Pytube.filter_mp4_progressive. rewrite !filter_In, andb_true_iff, str_eqb_eq.
  unfold Pytube.has_resolution. destruct (resolution s); intuition congruence.
Qed.


Lemma selected_streams_parse q :
  forallb Pytube.parses (List.filter Pytube.has_resolution
                    (Pytube.filter_mp4_progressive (fmt_streams q))) = true
  <-> (forall s, In s (selected_streams q) -> Pytube.stream_height s <> None).
Proof.
  rewrite forallb_forall. unfold selected_streams, Pytube.desc, Pytube.parses.
  split; intros H s Hs.
  - apply in_rev in Hs.
    apply (Permutation_in _ (order_by_resolution_perm _)) in Hs.
    specialize (H s Hs). destruct (Pytube.stream_height s); [discriminate|discriminate].
  - apply (Permutation_in _ (Permutation_sym (order_by_resolution_perm _))) in Hs.
    apply in_rev in Hs. specialize (H s Hs).
    destruct (Pytube.stream_height s); [reflexivity|congruence].
Qed.

(** C5. The entries of ['streams'] that [get_video_info] returns are, in
    their order, the formatted streams of [selected_streams]: exactly the
    streams of the video that are progressive, of subtype mp4 and have a
    resolution. When every label shows a number the entries are in
    descending order of that number, otherwise in descending order of the
    labels. The same video gives the same result from any state. *)
Theorem get_video_info_streams_sorted video_id st info st' :
  get_video_info video_id st = (inr info, st') ->
  (exists yt q,
     YouTube (watch_url video_id) = inr yt
     /\ yt_streams yt = inr q
     /\ map_res format_stream (selected_streams q) = inr (vi_streams info)
     /\ List.map si_itag (vi_streams info) = List.map itag (selected_streams q)
     /\ List.map si_resolution (vi_streams info)
        = List.map resolution (selected_streams q)
     /\ forall s,
          In s (selected_streams q) <->
          In s (fmt_streams q) /\ subtype s = py "mp4" /\ is_progressive s = true
          /\ resolution s <> None)
  /\ (Forall (fun d => descriptor_height d <> None) (vi_streams info) ->
      StronglySorted
        (fun a b => default 0 (descriptor_height b) <= default 0 (descriptor_height a))
        (vi_streams info))
  /\ (~ Forall (fun d => descriptor_height d <> None) (vi_streams info) ->
      StronglySorted
        (fun a b => Pytube.str_leb (descriptor_label b) (descriptor_label a) = true)
        (vi_streams info))
  /\ (forall st2,
        get_video_info video_id st2 = (inr info, requested (watch_url video_id) st2)).
Proof.
  intros H. apply get_video_info_inv in H.
  destruct H as (yt & q & Hyt & Hlen & Hle & Hq & Hfs & Ht & Ha & Hth & _).
  pose proof (map_res_inr _ _ _ Hfs) as HF.
  assert (Forall2 (fun s d => si_resolution d = resolution s)
            (selected_streams q) (vi_streams info)) as HR.
  { eapply Forall2_impl; [exact HF|]. intros s d Hd.
    now apply format_stream_fields in Hd. }
  destruct (order_by_resolution_sorted
              (Pytube.filter_mp4_progressive (fmt_streams q))) as [Hnum Hstr].
  split; [|split; [|split]].
  - exists yt, q. do 3 (split; [assumption|]).
    destruct (formatted_resolutions _ _ Hfs) as [H1 H2].
    do 2 (split; [assumption|]). apply selected_streams_In.
  - intros Hall.
    assert (forallb Pytube.parses (List.filter Pytube.has_resolution
              (Pytube.filter_mp4_progressive (fmt_streams q))) = true) as F.
    { apply selected_streams_parse. intros s Hs Hnone.
      destruct (Forall2_In_l _ _ _ _ HR Hs) as (d & Hd & Hds).
      rewrite List.Forall_forall in Hall. apply (Hall d Hd).
      unfold descriptor_height. rewrite Hds. exact Hnone. }
    apply (StronglySorted_Forall2 resolution si_resolution
             (fun x y => label_height y <= label_height x) _ _ HR).
    apply StronglySorted_rev with (R := fun a b =>
      label_height (resolution a) <= label_height (resolution b)).
    exact (Hnum F).
  - intros Hnot.
    assert (forallb Pytube.parses (List.filter Pytube.has_resolution
              (Pytube.filter_mp4_progressive (fmt_streams q))) = false) as F.
    { apply not_true_is_false. intros F. apply Hnot.
      apply List.Forall_forall. intros d Hd.
      destruct (Forall2_In_r _ _ _ _ HR Hd) as (s & Hs & Hds).
      unfold descriptor_height. rewrite Hds.
      exact (proj1 (selected_streams_parse q) F s Hs). }
    apply (StronglySorted_Forall2 resolution si_resolution
             (fun x y => Pytube.str_leb (label_text y) (label_text x) = true) _ _ HR).
    apply StronglySorted_rev with (R := fun a b =>
      Pytube.str_leb (label_text (resolution a)) (label_text (resolution b)) = true).
    exact (Hstr F).
  - intros st2. now apply (get_video_info_success video_id yt q).
Qed.

End Claims.

(** ** The claims at work on the example platform *)


Lemma get_video_info_rejects_over_limit_witness :
  (3601 > MAX_VIDEO_DURATION)%Z /\
  (forall info st',
     @get_video_info Example.platform (py "LLLLLLLLLLL") Example.st0 <> (inr info, st')).
Proof.
  split; [reflexivity|].
  refine (proj1 (proj2 (proj2 (@get_video_info_rejects_over_limit Example.platform
            (py "LLLLLLLLLLL") Example.long_video 3601%Z Example.st0 _ _ _)))).
  - vm_compute; reflexivity.
  - reflexivity.
  - reflexivity.
Defined.

Lemma stream_video_rejects_unknown_itag_witness :
  get_by_itag Example.query (py "999") = inr None /\
  heap (snd (@stream_video Example.platform (py "dQw4w9WgXcQ") (py "999") Example.st0))
  = heap Example.st0.
Proof.
  split; [vm_compute; reflexivity|].
  refine (proj1 (proj2 (proj1 (@stream_video_rejects_unknown_itag Example.platform)
            (py "dQw4w9WgXcQ") (py "999") Example.short_video Example.query
            Example.st0 _ _ _))).
  - vm_compute; reflexivity.
  - reflexivity.
  - vm_compute; reflexivity.
Defined.

(** The call of C2's example does not fail with the bare message. *)
Lemma stream_video_unknown_itag_message_is_wrapped :
  @YouTube Example.platform (watch_url (py "dQw4w9WgXcQ")) = inr Example.short_video
  /\ yt_streams Example.short_video = inr Example.query
  /\ get_by_itag Example.query (py "999") = inr None
  /\ fst (@stream_video Example.platform (py "dQw4w9WgXcQ") (py "999") Example.st0)
     <> inl (Exn ValueError invalid_resolution_message).
Proof.
  split; [vm_compute; reflexivity|]. split; [reflexivity|].
  split; [vm_compute; reflexivity|].
  intros H. vm_compute in H. discriminate H.
Qed.

Lemma deliberate_ValueError_is_wrapped_witness :
  get_by_itag Example.query (py "999") = inr None /\
  fst (@stream_video Example.platform (py "dQw4w9WgXcQ") (py "999") Example.st0)
  = inl (Exn ValueError (processing_error invalid_resolution_message)).
Proof.
  split; [vm_compute; reflexivity|].
  refine (proj1 (proj2 (proj1 (proj2 (proj2 (proj2
            (@deliberate_ValueError_is_wrapped Example.platform))))
            (py "dQw4w9WgXcQ") (py "999") Example.short_video Example.query
            Example.st0 _ _ _))).
  - vm_compute; reflexivity.
  - reflexivity.
  - vm_compute; reflexivity.
Defined.

Lemma empty_parameter_counts_as_missing_witness :
  falsy (args_get (args (Example.request_of [("video_id", "")]%string)) (py "video_id")) = true
  /\ @video_info Example.platform (Example.request_of [("video_id", "")]%string) Example.st0
     = (inr (jsonify (JsonError missing_video_id_message) 400), Example.st0).
Proof.
  split; [vm_compute; reflexivity|].
  refine (proj1 (@empty_parameter_counts_as_missing Example.platform
            (Example.request_of [("video_id", "")]%string) Example.st0) _).
  vm_compute; reflexivity.
Defined.

Lemma video_info_error_mapping_witness :
  exn_cls (Exn OtherException (py "boom")) <> ValueError
  /\ video_info_except (Exn OtherException (py "boom")) Example.st0
     = (inr (jsonify (JsonError internal_error_message) 500),
        logged (py "API错误: " ++ py "boom") Example.st0).
Proof.
  split; [discriminate|].
  refine (proj1 (proj2 (proj2 (@video_info_error_mapping Example.platform)))
            (Exn OtherException (py "boom")) Example.st0 _).
  discriminate.
Defined.

Lemma make_filename_strips_and_appends_witness :
  exists yt q s t,
    @YouTube Example.platform (watch_url (py "dQw4w9WgXcQ")) = inr yt
    /\ yt_streams yt = inr q
    /\ get_by_itag q (py "22") = inr (Some s) /\ yt_title yt = inr t
    /\ py "Foo BarBaz_720p.mp4" = @make_filename Example.platform t (resolution s).
Proof.
  refine (proj2 (proj2 (proj2 (@make_filename_strips_and_appends Example.platform)))
            (py "dQw4w9WgXcQ") (py "22") Example.st0 0%nat
            (py "Foo BarBaz_720p.mp4") 3%Z
            (snd (@stream_video Example.platform (py "dQw4w9WgXcQ") (py "22")
                    Example.st0)) _).
  vm_compute; reflexivity.
Defined.

(** The filename C6 gives for its example is not the one the code derives. *)
Lemma make_filename_example_has_no_second_space :
  @make_filename Example.platform (py "Foo: Bar/Baz") (Some (py "720p"))
  <> py "Foo Bar Baz_720p.mp4".
Proof. intros H. vm_compute in H. discriminate H. Qed.


Lemma download_response_shape_witness :
  exists response st',
    @download Example.platform
      (Example.request_of [("video_id", "dQw4w9WgXcQ"); ("resolution", "22")]%string)
      Example.st0 = (inr response, st')
    /\ status response = 200
    /\ exists title s size,
         headers response
         = [(py "Content-Type", py "video/mp4");
            (py "Content-Disposition",
             py "attachment; filename="
             ++ @make_filename Example.platform title (resolution s));
            (py "Content-Length", str_of_Z size);
            (py "Accept-Ranges", py "bytes")].
Proof.
  eexists _, _. split; [vm_compute; reflexivity|]. split; [reflexivity|].
  destruct (proj1 (@download_response_shape Example.platform)
              (Example.request_of [("video_id", "dQw4w9WgXcQ"); ("resolution", "22")]%string)
              Example.st0 _ _ ltac:(vm_compute; reflexivity) eq_refl)
    as (video_id & itag & yt & q & s & title & data & size & g
        & _ & _ & _ & _ & _ & _ & _ & _ & Hh & _).
  exists title, s, size. exact Hh.
Defined.

(** C3. A download on the example platform whose client leaves after the
    first chunk, or before any chunk: the server closes the generator,
    and the buffer of the response is left open, [close()] never called
    on it. Only the client that asks once more after the last chunk makes
    [generate] reach its [byte_stream.close()], once. *)
Theorem aborted_download_leaves_stream_open :
  exists response st g,
    @download Example.platform
      (Example.request_of [("video_id", "dQw4w9WgXcQ"); ("resolution", "22")]%string)
      Example.st0 = (inr response, st)
    /\ status response = 200
    /\ body_of response = Streamed g
    /\ (exists chunk st' b,
          serve 1 g st = ([chunk], gen_at GenDone g, st')
          /\ heap st' !! gen_byte_stream g = Some b
          /\ closed b = false /\ closes b = 0%nat)
    /\ (exists st' b,
          serve 0 g st = ([], gen_at GenDone g, st')
          /\ heap st' !! gen_byte_stream g = Some b
          /\ closed b = false /\ closes b = 0%nat)
    /\ (exists chunk st' b,
          serve 2 g st = ([chunk], gen_at GenDone g, st')
          /\ heap st' !! gen_byte_stream g = Some b
          /\ closed b = true /\ closes b = 1%nat).
Proof.
  eexists _, _, _. split; [vm_compute; reflexivity|].
  split; [reflexivity|]. split; [reflexivity|].
  split; [|split].
  - eexists _, _, _. split; [vm_compute; reflexivity|].
    split; [vm_compute; reflexivity|]. split; reflexivity.
  - eexists _, _. split; [vm_compute; reflexivity|].
    split; [vm_compute; reflexivity|]. split; reflexivity.
  - eexists _, _, _. split; [vm_compute; reflexivity|].
    split; [vm_compute; reflexivity|]. split; reflexivity.
Qed.


Lemma get_video_info_streams_sorted_witness :
  exists info st',
    @get_video_info Example.platform (py "dQw4w9WgXcQ") Example.st0 = (inr info, st')
    /\ List.map si_resolution (vi_streams info) = [Some (py "720p"); Some (py "360p")]
    /\ StronglySorted
         (fun a b => default 0 (descriptor_height b) <= default 0 (descriptor_height a))
         (vi_streams info).
Proof.
  eexists _, _. split; [vm_compute; reflexivity|]. split; [vm_compute; reflexivity|].
  refine (proj1 (proj2 (@get_video_info_streams_sorted Example.platform
            (py "dQw4w9WgXcQ") Example.st0 _ _ ltac:(vm_compute; reflexivity))) _).
  repeat constructor; discriminate.
Defined.

Lemma is_valid_youtube_url_spec_witness :
  re_search DOMAIN_RE (py "www.youtube.com/watch?v=dQw4w9WgXcQ") = None
  /\ is_valid_youtube_url (py "www.youtube.com/watch?v=dQw4w9WgXcQ") = false.
Proof.
  split; [vm_compute; reflexivity|].
  refine (proj1 (proj2 (proj2 (proj2 is_valid_youtube_url_spec))) _ _).
  vm_compute; reflexivity.
Defined.

(** * Further properties of the code *)

Section ExtractorFailures.
Context {P : Platform}.

(** ** [get_video_info] *)

Lemma get_video_info_first_failure video_id st e :
  (YouTube (watch_url video_id) = inl e
   \/ exists yt, YouTube (watch_url video_id) = inr yt /\ yt_length yt = inl e) ->
  get_video_info_try video_id st = (inl e, requested (watch_url video_id) st).
Proof.
  unfold get_video_info_try, bind, new_YouTube, lift.
  intros [H|(yt & H & Hl)]; rewrite H; cbv beta iota; [reflexivity|].
  now rewrite Hl.
Qed.

(** X1. When constructing the [YouTube] object or reading its length
    fails, [get_video_info] raises a [ValueError] whose message depends on
    the class of the failure only: the age-restriction text, the
    unavailable text, or the processing-error prefix followed by the
    failure's own text, which alone is logged. [video_info] answers 400
    with that message. *)
Theorem get_video_info_maps_extractor_failures video_id st e :
  (YouTube (watch_url video_id) = inl e
   \/ exists yt, YouTube (watch_url video_id) = inr yt /\ yt_length yt = inl e) ->
  get_video_info video_id st
  = (inl (Exn ValueError
            match exn_cls e with
            | AgeRestrictedError => age_restricted_message
            | VideoUnavailable => unavailable_message
            | _ => processing_error (exn_str e)
            end),
     match exn_cls e with
     | AgeRestrictedError | VideoUnavailable => requested (watch_url video_id) st
     | _ => logged (py "获取视频信息失败: " ++ exn_str e)
                   (requested (watch_url video_id) st)
     end)
  /\ forall request,
       args_get (args request) (py "video_id") = Some video_id ->
       video_id <> [] ->
       fst (video_info request st)
       = inr (jsonify (JsonError
                         match exn_cls e with
                         | AgeRestrictedError => age_restricted_message
                         | VideoUnavailable => unavailable_message
                         | _ => processing_error (exn_str e)
                         end) 400).
Proof.
  intros H.
  assert (get_video_info video_id st
          = (inl (Exn ValueError
                    match exn_cls e with
                    | AgeRestrictedError => age_restricted_message
                    | VideoUnavailable => unavailable_message
                    | _ => processing_error (exn_str e)
                    end),
             match exn_cls e with
             | AgeRestrictedError | VideoUnavailable =>
               requested (watch_url video_id) st
             | _ => logged (py "获取视频信息失败: " ++ exn_str e)
                           (requested (watch_url video_id) st)
             end)) as E.
  { unfold get_video_info, try_except.
    rewrite (get_video_info_first_failure video_id st e H).
    unfold get_video_info_except, bind, logger_error, raise.
    destruct (exn_cls e); reflexivity. }
  split; [exact E|]. intros request Hv Hne.
  rewrite (video_info_with_id request video_id st Hv Hne), E.
  reflexivity.
Qed.

Lemma get_video_info_try_state video_id st :
  snd (get_video_info_try video_id st) = requested (watch_url video_id) st.
Proof.
  unfold get_video_info_try, bind, new_YouTube, lift, ret, raise.
  destruct (YouTube (watch_url video_id)) as [e|yt]; [reflexivity|]. cbv beta iota.
  destruct (yt_length yt) as [e|len]; [reflexivity|]. cbv beta iota.
  destruct (len >? MAX_VIDEO_DURATION)%Z; [reflexivity|]. cbv beta iota.
  destruct (yt_streams yt) as [e|q]; [reflexivity|]. cbv beta iota zeta.
  destruct (map_res format_stream (selected_streams q)) as [e|fs]; [reflexivity|].
  cbv beta iota.
  destruct (yt_title yt) as [e|t]; [reflexivity|]. cbv beta iota.
  destruct (yt_author yt) as [e|a]; [reflexivity|]. cbv beta iota.
  destruct (yt_thumbnail_url yt) as [e|th]; reflexivity.
Qed.

(** X2. [get_video_info] creates no buffer and constructs exactly one
    [YouTube] object, for the watch URL of its argument. It logs nothing
    when it returns; when it fails the exception is a [ValueError], and
    either nothing is logged or exactly one message is, which carries the
    detail the exception's message carries after the processing-error
    prefix. *)
Theorem get_video_info_effects video_id st :
  let st' := snd (get_video_info video_id st) in
  heap st' = heap st
  /\ requests st' = requests st ++ [watch_url video_id]
  /\ (forall info, fst (get_video_info video_id st) = inr info -> log st' = log st)
  /\ (forall e, fst (get_video_info video_id st) = inl e ->
        exn_cls e = ValueError
        /\ (log st' = log st
            \/ exists detail,
                 exn_str e = processing_error detail
                 /\ log st' = log st ++ [py "获取视频信息失败: " ++ detail])).
Proof.
  cbv zeta. unfold get_video_info, try_except.
  pose proof (get_video_info_try_state video_id st) as Hs.
  destruct (get_video_info_try video_id st) as [[e0|info] st1]; cbn [snd] in Hs; subst st1.
  - unfold get_video_info_except, bind, logger_error, raise.
    destruct e0 as [c m]. cbn [exn_cls exn_str].
    destruct c; cbn [fst snd]; (split; [reflexivity|]); (split; [reflexivity|]);
      (split; [discriminate|]); intros e [= <-]; (split; [reflexivity|]).
    + now left.
    + now left.
    + right. now exists m.
    + right. now exists m.
  - cbn [fst snd]. split; [reflexivity|]. split; [reflexivity|].
    split; [reflexivity|discriminate].
Qed.

(** X3. [get_video_info] returns a dictionary exactly when the extractor
    answers every question asked, the length is at most 3600 seconds (3600
    itself is accepted) and every selected stream can be formatted; the
    dictionary then holds the extractor's title, author, length and
    thumbnail and the formatted streams. *)
Theorem get_video_info_returns_iff video_id st info st' :
  get_video_info video_id st = (inr info, st') <->
  exists yt q,
    YouTube (watch_url video_id) = inr yt
    /\ yt_length yt = inr (vi_duration info)
    /\ (vi_duration info <= 3600)%Z
    /\ yt_streams yt = inr q
    /\ map_res format_stream (selected_streams q) = inr (vi_streams info)
    /\ yt_title yt = inr (vi_title info)
    /\ yt_author yt = inr (vi_author info)
    /\ yt_thumbnail_url yt = inr (vi_thumbnail_url info)
    /\ st' = requested (watch_url video_id) st.
Proof.
  split.
  - apply get_video_info_inv.
  - intros (yt & q & Hyt & Hlen & Hle & Hq & Hfs & Ht & Ha & Hth & ->).
    now apply (get_video_info_success video_id yt q).
Qed.

End ExtractorFailures.

Section StreamVideo.
Context {P : Platform}.

(** ** [stream_video] *)

(** X4. [stream_video] returns exactly when the extractor gives the
    streams, a stream for the itag, the title, the stream's data and its
    size. The handle returned is that of one new buffer, appended to the
    heap, open, holding the whole data and positioned at its start; the
    file name is made from the title and the stream's resolution. *)
Theorem stream_video_returns_iff video_id itag st h filename size st' :
  stream_video video_id itag st = (inr (h, filename, size), st') <->
  exists yt q s t data,
    YouTube (watch_url video_id) = inr yt
    /\ yt_streams yt = inr q
    /\ get_by_itag q itag = inr (Some s)
    /\ yt_title yt = inr t
    /\ stream_data s = inr data
    /\ filesize s = inr size
    /\ h = length (heap st)
    /\ filename = make_filename t (resolution s)
    /\ st' = allocated (fresh_buffer data) (requested (watch_url video_id) st).
Proof.
  split.
  - apply stream_video_inv.
  - intros (yt & q & s & t & data & Hyt & Hq & Hi & Ht & Hd & Hs & -> & -> & ->).
    now apply (stream_video_success video_id itag yt q s t data size).
Qed.

(** What [stream_video] does with an exception of its [try]. *)
Lemma stream_video_data_fails video_id itag yt q s t st e :
  YouTube (watch_url video_id) = inr yt ->
  yt_streams yt = inr q ->
  get_by_itag q itag = inr (Some s) ->
  yt_title yt = inr t ->
  stream_data s = inl e ->
  stream_video video_id itag st
  = stream_video_failed e
      (allocated (fresh_buffer []) (requested (watch_url video_id) st)).
Proof.
  intros Hyt Hq Hi Ht Hd.
  unfold stream_video, stream_video_try, new_YouTube, stream_to_buffer,
    BytesIO_new, try_except, bind, lift, ret, raise.
  rewrite Hyt; cbv beta iota. rewrite Hq; cbv beta iota.
  rewrite Hi; cbv beta iota. rewrite Ht; cbv beta iota.
  rewrite Hd; cbv beta iota. reflexivity.
Qed.

Lemma stream_video_size_fails video_id itag yt q s t st data e :
  YouTube (watch_url video_id) = inr yt ->
  yt_streams yt = inr q ->
  get_by_itag q itag = inr (Some s) ->
  yt_title yt = inr t ->
  stream_data s = inr data ->
  filesize s = inl e ->
  stream_video video_id itag st
  = stream_video_failed e
      (allocated (fresh_buffer data) (requested (watch_url video_id) st)).
Proof.
  intros Hyt Hq Hi Ht Hd Hs.
  unfold stream_video, stream_video_try, new_YouTube, stream_to_buffer,
    BytesIO_new, try_except, bind, lift, ret, raise.
  rewrite Hyt; cbv beta iota. rewrite Hq; cbv beta iota.
  rewrite Hi; cbv beta iota. rewrite Ht; cbv beta iota.
  rewrite Hd; cbv beta iota.
  rewrite on_buffer_last. cbn [fst snd BytesIO_write BytesIO_empty fresh_buffer closed].
  cbv beta iota. rewrite on_buffer_last.
  cbn [fst snd BytesIO_seek closed]. cbv beta iota.
  rewrite Hs. cbv beta iota. unfold stream_video_failed, stream_video_except, bind,
    logger_error, raise, fresh_buffer. cbn [takeN dropN app buf pos closes length].
  now rewrite app_nil_r.
Qed.


End StreamVideo.

Section StreamVideoEffects.
Context {P : Platform}.

Lemma stream_video_outcome video_id itag st :
  (exists filename size data,
     stream_video video_id itag st
     = (inr (length (heap st), filename, size),
        allocated (fresh_buffer data) (requested (watch_url video_id) st)))
  \/ (exists e,
        stream_video video_id itag st
        = stream_video_failed e (requested (watch_url video_id) st))
  \/ (exists e data,
        stream_video video_id itag st
        = stream_video_failed e
            (allocated (fresh_buffer data) (requested (watch_url video_id) st))).
Proof.
  destruct (YouTube (watch_url video_id)) as [e|yt] eqn:Hyt.
  { right; left. exists e.
    unfold stream_video, stream_video_try, new_YouTube, try_except, bind.
    now rewrite Hyt. }
  destruct (yt_streams yt) as [e|q] eqn:Hq.
  { right; left. exists e.
    unfold stream_video, stream_video_try, new_YouTube, try_except, bind, lift.
    rewrite Hyt; cbv beta iota. now rewrite Hq. }
  destruct (get_by_itag q itag) as [e|[s|]] eqn:Hi.
  { right; left. exists e.
    unfold stream_video, stream_video_try, new_YouTube, try_except, bind, lift.
    rewrite Hyt; cbv beta iota. rewrite Hq; cbv beta iota. now rewrite Hi. }
  2:{ right; left. exists (Exn ValueError invalid_resolution_message).
      unfold stream_video, stream_video_try, new_YouTube, try_except, bind, lift, raise.
      rewrite Hyt; cbv beta iota. rewrite Hq; cbv beta iota. now rewrite Hi. }
  destruct (yt_title yt) as [e|t] eqn:Ht.
  { right; left. exists e.
    unfold stream_video, stream_video_try, new_YouTube, try_except, bind, lift.
    rewrite Hyt; cbv beta iota. rewrite Hq; cbv beta iota.
    rewrite Hi; cbv beta iota. now rewrite Ht. }
  destruct (stream_data s) as [e|data] eqn:Hd.
  { right; right. exists e, [].
    exact (stream_video_data_fails video_id itag yt q s t st e Hyt Hq Hi Ht Hd). }
  destruct (filesize s) as [e|size] eqn:Hs.
  { right; right. exists e, data.
    exact (stream_video_size_fails video_id itag yt q s t st data e Hyt Hq Hi Ht Hd Hs). }
  left. exists (make_filename t (resolution s)), size, data.
  now apply (stream_video_success video_id itag yt q s t data size).
Qed.

(** X6. [stream_video] constructs exactly one [YouTube] object and adds
    at most one buffer, an open one, at the end of the heap. It logs
    nothing when it returns, and the handle it returns is that of the new
    buffer. When it fails, the exception is a [ValueError] with the
    processing-error prefix, and exactly one message is logged, with the
    same detail. *)
Theorem stream_video_effects video_id itag st :
  let r := stream_video video_id itag st in
  requests (snd r) = requests st ++ [watch_url video_id]
  /\ (heap (snd r) = heap st
      \/ exists data, heap (snd r) = heap st ++ [fresh_buffer data])
  /\ (forall v, fst r = inr v ->
        log (snd r) = log st
        /\ fst (fst v) = length (heap st)
        /\ exists data, heap (snd r) = heap st ++ [fresh_buffer data])
  /\ (forall e, fst r = inl e ->
        exn_cls e = ValueError
        /\ exists detail,
             exn_str e = processing_error detail
             /\ log (snd r) = log st ++ [py "视频流处理失败: " ++ detail]).
Proof.
  cbv zeta.
  destruct (stream_video_outcome video_id itag st)
    as [(f & z & data & E)|[(e0 & E)|(e0 & data & E)]]; rewrite E;
    unfold stream_video_failed; cbn [fst snd requests heap log allocated requested logged].
  - split; [reflexivity|]. split; [right; now exists data|].
    split; [|discriminate]. intros v [= <-]. cbn [fst].
    split; [reflexivity|]. split; [reflexivity|]. now exists data.
  - split; [reflexivity|]. split; [now left|]. split; [discriminate|].
    intros e [= <-]. split; [reflexivity|]. now exists (exn_str e0).
  - split; [reflexivity|]. split; [right; now exists data|]. split; [discriminate|].
    intros e [= <-]. split; [reflexivity|]. now exists (exn_str e0).
Qed.

(** ** [download] *)

(** X7. [download] never answers with another status than 200 or 400:
    every exception of [stream_video] is a [ValueError], so the 500 clause
    is not reached. A failure of the extractor, of whatever class, is
    answered with 400 and the processing-error prefix followed by the
    extractor's own text, and is logged once. *)
Theorem download_reports_every_failure_as_400 :
  (forall request st,
     exists response st',
       download request st = (inr response, st')
       /\ (status response = 200 \/ status response = 400))
  /\ (forall request video_id itag st e,
        args_get (args request) (py "video_id") = Some video_id ->
        args_get (args request) (py "resolution") = Some itag ->
        video_id <> [] -> itag <> [] ->
        (YouTube (watch_url video_id) = inl e
         \/ exists yt, YouTube (watch_url video_id) = inr yt /\ yt_streams yt = inl e) ->
        download request st
        = (inr (jsonify (JsonError (processing_error (exn_str e))) 400),
           logged (py "视频流处理失败: " ++ exn_str e)
                  (requested (watch_url video_id) st))).
Proof.
  split.
  - intros request st.
    destruct (falsy (args_get (args request) (py "video_id"))) eqn:F1.
    { eexists _, _. split; [apply download_missing; now left|now right]. }
    destruct (falsy (args_get (args request) (py "resolution"))) eqn:F2.
    { eexists _, _. split; [apply download_missing; now right|now right]. }
    destruct (args_get (args request) (py "video_id")) as [[|c v]|] eqn:Hv;
      try discriminate F1.
    destruct (args_get (args request) (py "resolution")) as [[|d i]|] eqn:Hi;
      try discriminate F2.
    rewrite (download_with_parameters request (c :: v) (d :: i) st Hv Hi)
      by discriminate.
    destruct (stream_video (c :: v) (d :: i) st) as [[e|[[h f] z]] st1] eqn:E.
    + destruct (stream_video_raises _ _ _ _ _ E) as [Hc _].
      destruct e as [k m]. cbn [exn_cls] in Hc. subst k.
      eexists _, _. split; [reflexivity|now right].
    + eexists _, _. split; [reflexivity|now left].
  - intros request video_id itag st e Hv Hi Hne1 Hne2 H.
    rewrite (download_with_parameters request video_id itag st Hv Hi Hne1 Hne2).
    assert (stream_video video_id itag st
            = stream_video_failed e (requested (watch_url video_id) st)) as ->.
    { unfold stream_video, stream_video_try, new_YouTube, try_except, bind, lift.
      destruct H as [H|(yt & H & Hq)]; rewrite H; cbv beta iota; [reflexivity|].
      now rewrite Hq. }
    reflexivity.
Qed.

End StreamVideoEffects.

(** ** The generator, served in part *)

Lemma split_chunks_count (m : nat) (size : N) : forall data : bytes,
  0 < size ->
  ((length (split_chunks (S m) size data) < S m)%nat
   <-> N.of_nat (length data) <= N.of_nat m * size).
Proof.
  induction m as [|m IH]; intros data Hs.
  - cbn [split_chunks]. destruct (takeN size data) as [|x c] eqn:E.
    + apply (takeN_nil_iff size data Hs) in E. subst. cbn [length]. lia.
    + cbn [length]. split; [lia|]. intros H.
      assert (data = []) as -> by (destruct data; [reflexivity|cbn [length] in H; lia]).
      discriminate E.
  - remember (S m) as k. cbn [split_chunks].
    destruct (takeN size data) as [|x c] eqn:E.
    + apply (takeN_nil_iff size data Hs) in E. subst data. cbn [length]. lia.
    + cbn [length]. subst k. rewrite <- Nat.succ_lt_mono, (IH _ Hs), length_dropN. lia.
Qed.

Lemma split_chunks_prefix (n : nat) (size : N) : forall data : bytes,
  0 < size ->
  concat (split_chunks n size data) = takeN (N.of_nat n * size) data.
Proof.
  induction n as [|n IH]; intros data Hs.
  - cbn [split_chunks concat]. now destruct data.
  - cbn [split_chunks]. destruct (takeN size data) as [|x c] eqn:E.
    + apply (takeN_nil_iff size data Hs) in E. now subst.
    + cbn [concat]. rewrite (IH _ Hs), <- E, !takeN_take, dropN_drop.
      replace (N.to_nat (N.of_nat (S n) * size))
        with (N.to_nat size + N.to_nat (N.of_nat n * size))%nat by lia.
      apply take_take_drop.
Qed.

(** X8. A client that takes at most [n] chunks of a body whose buffer
    holds [data] is sent the first [n * chunk_size] bytes of [data], and
    nothing else of the state changes than that buffer. The buffer is
    closed, and then exactly once, exactly when [n] is positive and [data]
    fits in [n - 1] chunks: the generator must be asked once more after
    its last chunk. *)
Theorem serve_partial n g st data :
  gen_status_of g <> GenDone ->
  heap st !! gen_byte_stream g = Some (fresh_buffer data) ->
  exists chunks st' b',
    serve n g st = (chunks, gen_at GenDone g, st')
    /\ concat chunks = takeN (N.of_nat n * chunk_size) data
    /\ heap st' = <[gen_byte_stream g := b']> (heap st)
    /\ log st' = log st
    /\ requests st' = requests st
    /\ (closed b' = true
        <-> (0 < n)%nat /\ N.of_nat (length data) <= N.of_nat (n - 1) * chunk_size)
    /\ closes b' = (if closed b' then 1 else 0)%nat.
Proof.
  intros Hg Hb.
  rewrite (serve_run n g st (fresh_buffer data) Hg Hb eq_refl).
  unfold remaining. cbn [pos buf fresh_buffer]. rewrite dropN_0.
  eexists _, _, _. split; [reflexivity|].
  split; [now apply split_chunks_prefix|].
  split; [reflexivity|]. split; [reflexivity|]. split; [reflexivity|].
  unfold after_serve, remaining. cbn [pos buf fresh_buffer closes]. rewrite dropN_0.
  destruct n as [|m].
  - cbn [split_chunks length Nat.ltb Nat.leb closed]. split; [|reflexivity].
    split; [discriminate|lia].
  - pose proof (split_chunks_count m chunk_size data eq_refl) as Hc.
    replace (S m - 1)%nat with m by lia.
    destruct (Nat.ltb_spec (length (split_chunks (S m) chunk_size data)) (S m)) as [Hl|Hl];
      cbn [closed].
    + split; [|reflexivity]. split; [intros _|reflexivity]. split; [lia|now apply Hc].
    + split; [|reflexivity]. split; [discriminate|]. intros [_ H]. apply Hc in H. lia.
Qed.

(** ** The validator on look-alike domains and on the handlers' URL *)

Lemma allowed_entries_slash_free a :
  In a ALLOWED_DOMAINS -> Forall (fun c => c <> ch "/") a.
Proof.
  intros Ha. assert (forallb not_slash a = true) as H.
  { destruct Ha as [<-|[<-|[]]]; reflexivity. }
  apply List.Forall_forall. intros c Hc.
  pose proof (proj1 (forallb_forall _ _) H c Hc) as Hn.
  unfold not_slash in Hn. intros ->. now rewrite N.eqb_refl in Hn.
Qed.

Lemma www_then_allowed p a d' :
  In a ALLOWED_DOMAINS -> p ++ a = py "www." ++ d' -> allowed_domain d'.
Proof.
  intros Ha H. change (py "www.") with [ch "w"; ch "w"; ch "w"; ch "."] in H.
  destruct p as [|c1 [|c2 [|c3 [|c4 p]]]]; cbn [app] in H.
  1-4: exfalso; destruct Ha as [<-|[<-|[]]]; vm_compute in H; discriminate H.
  injection H as _ _ _ _ H. subst d'. right. now exists a, p.
Qed.

Lemma has_video_id_app pre s : has_video_id s -> has_video_id (pre ++ s).
Proof.
  intros (pre' & s' & -> & H). exists (pre ++ pre'), s'.
  split; [now rewrite app_assoc|exact H].
Qed.

Lemma extracted_domain_head s d : domain_here s d -> extracted_domain s d.
Proof.
  intros H. exists [], s. split; [reflexivity|]. split; [exact H|].
  intros pre' s' d' _ Hl. cbn [length] in Hl. lia.
Qed.

Lemma is_valid_youtube_url_suffix_domain scheme p a path :
  scheme = py "http" \/ scheme = py "https" ->
  In a ALLOWED_DOMAINS ->
  Forall (fun c => c <> ch "/") p ->
  has_video_id (ch "/" :: path) ->
  is_valid_youtube_url (scheme ++ py "://" ++ p ++ a ++ ch "/" :: path) = true.
Proof.
  intros Hs Ha Hp Hv. apply is_valid_youtube_url_iff.
  assert (Forall (fun c => c <> ch "/") (p ++ a)) as Hd0.
  { apply Forall_app. split; [exact Hp|now apply allowed_entries_slash_free]. }
  assert (p ++ a <> []) as Hne.
  { intros H. apply app_eq_nil in H. destruct H as [_ ->].
    destruct Ha as [H|[H|[]]]; discriminate H. }
  assert (has_video_id (scheme ++ py "://" ++ p ++ a ++ ch "/" :: path)) as Hv'.
  { rewrite !app_assoc. now apply has_video_id_app. }
  destruct (strip_prefix (py "www.") (p ++ a)) as [d'|] eqn:E.
  - apply strip_prefix_spec in E. destruct d' as [|c d'].
    + exists (p ++ a). split; [|split; [|exact Hv']].
      * apply extracted_domain_head. exists scheme, [], (ch "/" :: path).
        split; [now rewrite <- app_assoc|]. split; [exact Hs|]. split; [exact Hne|].
        split; [exact Hd0|]. split; [right; now eexists|]. right. split; [reflexivity|].
        intros (d'' & Hd'' & E2). rewrite E in E2. apply app_inv_head in E2.
        now subst d''.
      * right. now exists a, p.
    + exists (c :: d'). split; [|split; [|exact Hv']].
      * apply extracted_domain_head. exists scheme, (py "www."), (ch "/" :: path).
        split.
        { rewrite (app_assoc p a), E, <- app_assoc. reflexivity. }
        split; [exact Hs|]. split; [discriminate|]. split.
        { rewrite E in Hd0. apply Forall_app in Hd0. now destruct Hd0. }
        split; [right; now eexists|]. now left.
      * now apply (www_then_allowed p a).
  - exists (p ++ a). split; [|split; [|exact Hv']].
    + apply extracted_domain_head. exists scheme, [], (ch "/" :: path).
      split; [now rewrite <- app_assoc|]. split; [exact Hs|]. split; [exact Hne|].
      split; [exact Hd0|]. split; [right; now eexists|]. right. split; [reflexivity|].
      intros (d'' & Hd'' & E2). apply strip_prefix_spec in E2. congruence.
    + right. now exists a, p.
Qed.

(** X9. The validator accepts every URL with scheme [http] or [https]
    whose host is any text without [/] followed by an entry of the
    allow-list, and whose path starts with eleven ID characters, whatever
    comes after them. *)
Theorem is_valid_youtube_url_accepts_lookalike_domain scheme p a id post :
  scheme = py "http" \/ scheme = py "https" ->
  In a ALLOWED_DOMAINS ->
  Forall (fun c => c <> ch "/") p ->
  length id = 11%nat ->
  Forall (fun c => id_char c = true) id ->
  is_valid_youtube_url (scheme ++ py "://" ++ p ++ a ++ py "/" ++ id ++ post) = true.
Proof.
  intros Hs Ha Hp Hl Hid.
  change (py "/" ++ id ++ post) with (ch "/" :: id ++ post).
  apply is_valid_youtube_url_suffix_domain; auto.
  exists [], (ch "/" :: id ++ post). split; [reflexivity|].
  exists (py "/"), id, post. split; [reflexivity|]. split; [now right|]. now split.
Qed.

Lemma re_search_watch_url v :
  re_search VIDEO_ID_RE (watch_url v) = re_search VIDEO_ID_RE (py "v=" ++ v).
Proof. unfold watch_url. vm_compute. reflexivity. Qed.

Lemma is_valid_watch_url_iff v :
  is_valid_youtube_url (watch_url v) = true <-> has_video_id (py "v=" ++ v).
Proof.
  rewrite !has_video_id_search, <- re_search_watch_url, <- has_video_id_search.
  rewrite is_valid_youtube_url_iff. split.
  - intros (d & _ & _ & H). exact H.
  - intros H. exists (py "youtube.com"). split; [|split; [|exact H]].
    + apply extracted_domain_head.
      exists (py "https"), (py "www."), (py "/watch?v=" ++ v).
      split; [reflexivity|]. split; [now right|]. split; [discriminate|].
      split; [apply allowed_entries_slash_free; now left|].
      split; [right; now eexists|]. now left.
    + left. now left.
Qed.

(** X10. The URL the handlers build from a video ID passes the validator
    exactly when [v=] followed by the ID holds a candidate video ID; it
    does when the ID starts with eleven ID characters, and it does not
    when the ID has fewer than eleven characters. *)
Theorem watch_url_validity :
  (forall v, is_valid_youtube_url (watch_url v) = true <-> has_video_id (py "v=" ++ v))
  /\ (forall id post,
        length id = 11%nat -> Forall (fun c => id_char c = true) id ->
        is_valid_youtube_url (watch_url (id ++ post)) = true)
  /\ (forall v, (length v < 11)%nat -> is_valid_youtube_url (watch_url v) = false).
Proof.
  split; [exact is_valid_watch_url_iff|]. split.
  - intros id post Hl Hid. apply is_valid_watch_url_iff.
    exists [], (py "v=" ++ id ++ post). split; [reflexivity|].
    exists (py "v="), id, post. split; [reflexivity|]. split; [now left|]. now split.
  - intros v Hl. apply not_true_is_false. intros H. apply is_valid_watch_url_iff in H.
    destruct H as (pre & t & E & sep & id & post & -> & Hsep & Hid & _).
    apply (f_equal (@length _)) in E as El. rewrite !length_app, Hid in El.
    change (length (py "v=")) with 2%nat in El.
    destruct Hsep as [-> | ->].
    + change (length (py "v=")) with 2%nat in El. lia.
    + change (length (py "/")) with 1%nat in El.
      destruct pre as [|c pre]; [|cbn [length] in El; lia].
      discriminate E.
Qed.

Lemma domain_here_starts_with_h s d : domain_here s d -> exists t, s = ch "h" :: t.
Proof.
  intros (scheme & www & rest & -> & [-> | ->] & _); eexists; reflexivity.
Qed.

Lemma extracted_domain_cons c url d :
  c <> ch "h" -> extracted_domain url d -> extracted_domain (c :: url) d.
Proof.
  intros Hc (pre & s & -> & Hd & Hmin). exists (c :: pre), s.
  split; [reflexivity|]. split; [exact Hd|].
  intros pre' s' d' E Hl Hd'. destruct pre' as [|c' pre']; cbn [app] in E.
  - apply domain_here_starts_with_h in Hd'. destruct Hd' as (t & ->).
    injection E as E _. now apply Hc.
  - injection E as _ E. apply (Hmin pre' s' d' E); [|exact Hd'].
    cbn [length] in Hl. lia.
Qed.

(** X11. The validator searches: text without the letter [h] in front
    of a URL it accepts does not change the answer. *)
Theorem is_valid_youtube_url_ignores_leading_text junk url :
  Forall (fun c => c <> ch "h") junk ->
  is_valid_youtube_url url = true ->
  is_valid_youtube_url (junk ++ url) = true.
Proof.
  intros Hj. rewrite !is_valid_youtube_url_iff.
  intros (d & Hd & Ha & Hv). exists d. split; [|split; [exact Ha|]].
  - induction Hj as [|c junk Hc Hj IH]; [exact Hd|].
    cbn [app]. now apply extracted_domain_cons.
  - now apply has_video_id_app.
Qed.

Lemma split_on_no_sep sep a :
  Forall (fun c => c <> sep) a -> split_on sep a = [a].
Proof.
  induction 1 as [|c a Hc Ha IH]; [reflexivity|]. cbn [split_on].
  destruct (N.eqb_spec c sep) as [E|_]; [contradiction|]. now rewrite IH.
Qed.

Lemma split_on_app sep a b :
  Forall (fun c => c <> sep) a ->
  split_on sep (a ++ sep :: b) = a :: split_on sep b.
Proof.
  induction 1 as [|c a Hc Ha IH]; cbn [app split_on].
  - now rewrite N.eqb_refl.
  - destruct (N.eqb_spec c sep) as [E|_]; [contradiction|]. now rewrite IH.
Qed.

Lemma map_res_first_failure {A B} (f : A -> res B) good x rest e :
  Forall (fun y => exists z, f y = inr z) good ->
  f x = inl e ->
  map_res f (good ++ x :: rest) = inl e.
Proof.
  intros Hg Hx. induction Hg as [|y good (z & Hy) Hg IH]; cbn [app map_res].
  - now rewrite Hx.
  - now rewrite Hy, IH.
Qed.

Section Handlers.
Context {P : Platform}.

(** ** The entries of ['streams'] *)

(** X13. For a stream whose size can be read, the ['type'] of its entry
    is the upper-cased second [/]-separated part of the MIME type; a MIME
    type without [/] makes the formatting fail with an [IndexError]. *)
Theorem format_stream_type s size :
  filesize s = inr size ->
  (forall major sub rest,
     Forall (fun c => c <> ch "/") major ->
     Forall (fun c => c <> ch "/") sub ->
     mime_type s = major ++ ch "/" :: sub ++ rest ->
     rest = [] \/ (exists rest', rest = ch "/" :: rest') ->
     format_stream s
     = inr {| si_itag := itag s; si_resolution := resolution s;
              si_filesize := size; si_fps := fps s; si_type := upper sub |})
  /\ (Forall (fun c => c <> ch "/") (mime_type s) ->
      format_stream s = inl (Exn OtherException (py "list index out of range"))).
Proof.
  intros Hs. unfold format_stream. rewrite Hs. split.
  - intros major sub rest Hm Hsub E Hrest. rewrite E, (split_on_app _ _ _ Hm).
    destruct Hrest as [->|(rest' & ->)].
    + rewrite app_nil_r, (split_on_no_sep _ _ Hsub). reflexivity.
    + rewrite (split_on_app _ _ _ Hsub). reflexivity.
  - intros Hm. rewrite (split_on_no_sep _ _ Hm). reflexivity.
Qed.

Lemma get_video_info_except_eq e st :
  get_video_info_except e st
  = (inl (Exn ValueError
            match exn_cls e with
            | AgeRestrictedError => age_restricted_message
            | VideoUnavailable => unavailable_message
            | _ => processing_error (exn_str e)
            end),
     match exn_cls e with
     | AgeRestrictedError | VideoUnavailable => st
     | _ => logged (py "获取视频信息失败: " ++ exn_str e) st
     end).
Proof.
  unfold get_video_info_except, bind, logger_error, raise.
  destruct (exn_cls e); reflexivity.
Qed.

(** X14. The listing is all or nothing: the first selected stream that
    cannot be formatted makes [get_video_info] fail, with the message the
    [except] clauses give for that stream's exception. *)
Theorem get_video_info_fails_with_first_bad_stream
    video_id yt len q good s rest e st :
  YouTube (watch_url video_id) = inr yt ->
  yt_length yt = inr len ->
  (len <= MAX_VIDEO_DURATION)%Z ->
  yt_streams yt = inr q ->
  selected_streams q = good ++ s :: rest ->
  Forall (fun x => exists i, format_stream x = inr i) good ->
  format_stream s = inl e ->
  get_video_info video_id st
  = (inl (Exn ValueError
            match exn_cls e with
            | AgeRestrictedError => age_restricted_message
            | VideoUnavailable => unavailable_message
            | _ => processing_error (exn_str e)
            end),
     match exn_cls e with
     | AgeRestrictedError | VideoUnavailable => requested (watch_url video_id) st
     | _ => logged (py "获取视频信息失败: " ++ exn_str e)
                   (requested (watch_url video_id) st)
     end).
Proof.
  intros Hyt Hlen Hle Hq Hsel Hgood Hs.
  unfold get_video_info, try_except.
  assert (get_video_info_try video_id st = (inl e, requested (watch_url video_id) st))
    as ->.
  { unfold get_video_info_try, bind, new_YouTube, lift, ret, raise.
    rewrite Hyt; cbv beta iota. rewrite Hlen; cbv beta iota.
    replace (len >? MAX_VIDEO_DURATION)%Z with false by (symmetry; lia).
    cbv beta iota. rewrite Hq; cbv beta iota zeta.
    rewrite Hsel, (map_res_first_failure format_stream good s rest e Hgood Hs).
    reflexivity. }
  apply get_video_info_except_eq.
Qed.

(** ** The handlers and the validator *)

Lemma get_video_info_requests video_id st :
  requests (snd (get_video_info video_id st)) = requests st ++ [watch_url video_id].
Proof.
  unfold get_video_info, try_except.
  pose proof (get_video_info_try_state video_id st) as Hs.
  destruct (get_video_info_try video_id st) as [[e0|info] st1]; cbn [snd] in Hs; subst st1.
  - rewrite get_video_info_except_eq. cbn [snd]. now destruct (exn_cls e0).
  - reflexivity.
Qed.

Lemma stream_video_requests video_id itag st :
  requests (snd (stream_video video_id itag st)) = requests st ++ [watch_url video_id].
Proof.
  destruct (stream_video_outcome video_id itag st)
    as [(f & z & data & E)|[(e0 & E)|(e0 & data & E)]]; rewrite E; reflexivity.
Qed.

(** X12. The handlers do not call the validator: [video_info] with any
    non-empty [video_id], and [download] with any non-empty [video_id]
    and [resolution], construct exactly one [YouTube] object, for the
    watch URL of that ID. *)
Theorem handlers_query_extractor_unvalidated request video_id st :
  args_get (args request) (py "video_id") = Some video_id ->
  video_id <> [] ->
  requests (snd (video_info request st)) = requests st ++ [watch_url video_id]
  /\ forall itag,
       args_get (args request) (py "resolution") = Some itag ->
       itag <> [] ->
       requests (snd (download request st)) = requests st ++ [watch_url video_id].
Proof.
  intros Hv Hne. split.
  - rewrite (video_info_with_id request video_id st Hv Hne).
    pose proof (get_video_info_requests video_id st) as Hr.
    destruct (get_video_info video_id st) as [[e|info] st1] eqn:E; cbn [snd] in Hr.
    + destruct (get_video_info_raises _ _ _ _ E) as [Hc _].
      unfold video_info_except. rewrite Hc. exact Hr.
    + exact Hr.
  - intros itag Hi Hni.
    rewrite (download_with_parameters request video_id itag st Hv Hi Hne Hni).
    pose proof (stream_video_requests video_id itag st) as Hr.
    destruct (stream_video video_id itag st) as [[e|[[h f] z]] st1] eqn:E;
      cbn [snd] in Hr.
    + destruct (stream_video_raises _ _ _ _ _ E) as [Hc _].
      unfold download_except. rewrite Hc. exact Hr.
    + exact Hr.
Qed.

(** X15. [video_info] answers 200 exactly when the request has a
    non-empty [video_id] and [get_video_info] returns for it; the body is
    then the dictionary returned, and the state is the one
    [get_video_info] left. *)
Theorem video_info_answers_200_iff request st response st' :
  video_info request st = (inr response, st') /\ status response = 200
  <-> exists video_id info,
        args_get (args request) (py "video_id") = Some video_id
        /\ video_id <> []
        /\ get_video_info video_id st = (inr info, st')
        /\ response = jsonify (JsonInfo info) 200.
Proof.
  split.
  - intros [H H200].
    destruct (falsy (args_get (args request) (py "video_id"))) eqn:F.
    { rewrite (video_info_missing request st F) in H. injection H as Hr _.
      subst response. discriminate H200. }
    destruct (args_get (args request) (py "video_id")) as [[|c v]|] eqn:Hv;
      try discriminate F.
    rewrite (video_info_with_id request (c :: v) st Hv) in H by discriminate.
    destruct (get_video_info (c :: v) st) as [[e|info] st1] eqn:E.
    + destruct (get_video_info_raises _ _ _ _ E) as [Hc _].
      unfold video_info_except in H. rewrite Hc in H. injection H as Hr _.
      subst response. discriminate H200.
    + injection H as Hr Hst. subst response st1.
      exists (c :: v), info. split; [reflexivity|]. split; [discriminate|].
      split; [exact E|reflexivity].
  - intros (video_id & info & Hv & Hne & E & ->).
    rewrite (video_info_with_id request video_id st Hv Hne), E. split; reflexivity.
Qed.

End Handlers.

(** ** The properties above at concrete inputs *)

Lemma get_video_info_maps_extractor_failures_witness :
  (exists yt,
     @YouTube Faulty.platform (watch_url (py "AAAAAAAAAAA")) = inr yt
     /\ yt_length yt = inl Faulty.age_restricted)
  /\ @get_video_info Faulty.platform (py "AAAAAAAAAAA") Example.st0
     = (inl (Exn ValueError age_restricted_message),
        requested (watch_url (py "AAAAAAAAAAA")) Example.st0).
Proof.
  assert (exists yt,
     @YouTube Faulty.platform (watch_url (py "AAAAAAAAAAA")) = inr yt
     /\ yt_length yt = inl Faulty.age_restricted) as H.
  { exists (Faulty.unreadable Faulty.age_restricted).
    split; [vm_compute; reflexivity|reflexivity]. }
  split; [exact H|].
  pose proof (proj1 (@get_video_info_maps_extractor_failures Faulty.platform
                       (py "AAAAAAAAAAA") Example.st0 Faulty.age_restricted
                       (or_intror H))) as E.
  etransitivity; [exact E|vm_compute; reflexivity].
Defined.

Lemma get_video_info_effects_witness :
  fst (@get_video_info Faulty.platform (py "NNNNNNNNNNN") Example.st0)
  = inl (Exn ValueError (processing_error (exn_str Faulty.too_many_requests)))
  /\ exn_cls (Exn ValueError (processing_error (exn_str Faulty.too_many_requests)))
     = ValueError.
Proof.
  assert (fst (@get_video_info Faulty.platform (py "NNNNNNNNNNN") Example.st0)
          = inl (Exn ValueError (processing_error (exn_str Faulty.too_many_requests))))
    as H by (vm_compute; reflexivity).
  split; [exact H|].
  pose proof (proj1 (proj2 (proj2 (proj2 (@get_video_info_effects Faulty.platform
           (py "NNNNNNNNNNN") Example.st0))) _ H)) as E.
  exact E.
Defined.


Lemma stream_video_effects_witness :
  fst (@stream_video Faulty.platform (py "BBBBBBBBBBB") (py "18") Example.st0)
  = inl (Exn ValueError (processing_error (exn_str Faulty.too_many_requests)))
  /\ exists detail,
       exn_str (Exn ValueError (processing_error (exn_str Faulty.too_many_requests)))
       = processing_error detail
       /\ log (snd (@stream_video Faulty.platform (py "BBBBBBBBBBB") (py "18")
                      Example.st0))
          = log Example.st0 ++ [py "视频流处理失败: " ++ detail].
Proof.
  assert (fst (@stream_video Faulty.platform (py "BBBBBBBBBBB") (py "18") Example.st0)
          = inl (Exn ValueError (processing_error (exn_str Faulty.too_many_requests))))
    as H by (vm_compute; reflexivity).
  split; [exact H|].
  exact (proj2 (proj2 (proj2 (proj2 (@stream_video_effects Faulty.platform
           (py "BBBBBBBBBBB") (py "18") Example.st0))) _ H)).
Defined.

Lemma download_reports_every_failure_as_400_witness :
  @YouTube Faulty.platform (watch_url (py "XXXXXXXXXXX"))
  = inl (Exn OtherException (py "regex_search: could not find match"))
  /\ fst (@download Faulty.platform
            (Example.request_of [("video_id", "XXXXXXXXXXX"); ("resolution", "22")]%string)
            Example.st0)
     = inr (jsonify (JsonError (processing_error
                                  (py "regex_search: could not find match"))) 400).
Proof.
  split; [vm_compute; reflexivity|].
  rewrite (proj2 (@download_reports_every_failure_as_400 Faulty.platform)
             (Example.request_of [("video_id", "XXXXXXXXXXX"); ("resolution", "22")]%string)
             (py "XXXXXXXXXXX") (py "22") Example.st0
             (Exn OtherException (py "regex_search: could not find match"))).
  - reflexivity.
  - vm_compute; reflexivity.
  - vm_compute; reflexivity.
  - discriminate.
  - discriminate.
  - left. vm_compute; reflexivity.
Defined.

Lemma serve_partial_witness :
  exists chunks st' b',
    serve 1 {| gen_byte_stream := 0%nat; gen_status_of := GenCreated |}
          {| log := []; heap := [fresh_buffer [Byte.x2a]]; requests := [] |}
    = (chunks, {| gen_byte_stream := 0%nat; gen_status_of := GenDone |}, st')
    /\ concat chunks = [Byte.x2a]
    /\ heap st' = [b']
    /\ closed b' = false.
Proof.
  destruct (serve_partial 1 {| gen_byte_stream := 0%nat; gen_status_of := GenCreated |}
              {| log := []; heap := [fresh_buffer [Byte.x2a]]; requests := [] |}
              [Byte.x2a] ltac:(discriminate) eq_refl)
    as (chunks & st' & b' & E & Hc & Hh & _ & _ & Hcl & _).
  exists chunks, st', b'. split; [exact E|]. split; [exact Hc|]. split; [exact Hh|].
  destruct (closed b'); [|reflexivity].
  exfalso. destruct (proj1 Hcl eq_refl) as [_ H]. vm_compute in H. now apply H.
Defined.

Lemma is_valid_youtube_url_accepts_lookalike_domain_witness :
  is_valid_youtube_url
    (py "http" ++ py "://" ++ py "not" ++ py "youtube.com" ++ py "/"
     ++ py "AAAAAAAAAAA" ++ py "AAAAAAAAA?x") = true.
Proof.
  apply (is_valid_youtube_url_accepts_lookalike_domain
           (py "http") (py "not") (py "youtube.com")
           (py "AAAAAAAAAAA") (py "AAAAAAAAA?x")).
  - now left.
  - now left.
  - vm_compute. repeat constructor; discriminate.
  - reflexivity.
  - vm_compute. repeat constructor.
Defined.

Lemma is_valid_youtube_url_ignores_leading_text_witness :
  is_valid_youtube_url (py "see " ++ py "https://youtu.be/dQw4w9WgXcQ") = true.
Proof.
  apply (is_valid_youtube_url_ignores_leading_text
           (py "see ") (py "https://youtu.be/dQw4w9WgXcQ")).
  - vm_compute. repeat constructor; discriminate.
  - vm_compute. reflexivity.
Defined.

Lemma format_stream_type_witness :
  filesize Example.s720 = inr 3%Z
  /\ @format_stream Example.platform Example.s720
     = inr {| si_itag := 22; si_resolution := Some (py "720p"); si_filesize := 3;
              si_fps := Some 30%Z; si_type := py "MP4" |}.
Proof.
  split; [reflexivity|].
  pose proof (proj1 (@format_stream_type Example.platform Example.s720 3%Z eq_refl)
                (py "video") (py "mp4") []) as E.
  etransitivity; [apply E|vm_compute; reflexivity].
  - vm_compute. repeat constructor; discriminate.
  - vm_compute. repeat constructor; discriminate.
  - reflexivity.
  - now left.
Defined.

Lemma get_video_info_fails_with_first_bad_stream_witness :
  @selected_streams Faulty.query = [Faulty.s_broken] ++ Faulty.s_sizeless :: []
  /\ @get_video_info Faulty.platform (py "BBBBBBBBBBB") Example.st0
     = (inl (Exn ValueError (processing_error (py "HTTP Error 429: Too Many Requests"))),
        logged (py "获取视频信息失败: " ++ py "HTTP Error 429: Too Many Requests")
               (requested (watch_url (py "BBBBBBBBBBB")) Example.st0)).
Proof.
  assert (@selected_streams Faulty.query = [Faulty.s_broken] ++ Faulty.s_sizeless :: [])
    as Hsel by (vm_compute; reflexivity).
  split; [exact Hsel|].
  pose proof (@get_video_info_fails_with_first_bad_stream Faulty.platform
                (py "BBBBBBBBBBB") Faulty.broken_video 100%Z Faulty.query
                [Faulty.s_broken] Faulty.s_sizeless [] Faulty.too_many_requests
                Example.st0) as E.
  etransitivity; [apply E|vm_compute; reflexivity].
  - vm_compute; reflexivity.
  - reflexivity.
  - vm_compute; discriminate.
  - reflexivity.
  - exact Hsel.
  - constructor; [|constructor]. eexists. vm_compute. reflexivity.
  - reflexivity.
Defined.

Lemma handlers_query_extractor_unvalidated_witness :
  is_valid_youtube_url (watch_url (py "x")) = false
  /\ requests (snd (@video_info Example.platform
                      (Example.request_of [("video_id", "x")]%string) Example.st0))
     = requests Example.st0 ++ [watch_url (py "x")].
Proof.
  split; [vm_compute; reflexivity|].
  apply (@handlers_query_extractor_unvalidated Example.platform
           (Example.request_of [("video_id", "x")]%string) (py "x") Example.st0).
  - vm_compute; reflexivity.
  - discriminate.
Defined.
